(** * neuron_minimal_io: a shallow embedding of [neuron_minimal_io/main.py]

    The development follows the layout of the source file:
    - the Python built-ins the module relies on ([str.strip], the ["ascii"]
      codec), as far as the module uses them;
    - the module constants and the allow-list [LIST_PORT_PID_VID_PAIRS];
    - [NeuronIO]: [ndeserialize], [nserialize] and the generator [io], the
      latter as a resumable state machine over an explicit serial-port world;
    - [NeuronChat]: [find_ports_with_dygma_products] and [__init__];
    - the properties of the specification, one theorem per claim. *)

From Stdlib Require Import NArith Strings.Byte.
From stdpp Require Import base list gmap strings.

Open Scope N_scope.

(** ** Python values *)

(** A Python [str] is a sequence of Unicode code points, a [bytes] object a
    sequence of octets. *)
Definition str := list N.
Definition bytes := list byte.

(** A string literal of the source, as a [str] (the literals of the module are
    all ASCII), and a bytes literal. *)
Definition lit (s : string) : str :=
  Ascii.N_of_ascii <$> String.list_ascii_of_string s.

Definition blit (s : string) : bytes := String.list_byte_of_string s.

Definition CRLF : bytes := [x0d; x0a].

(** The exceptions that the module raises or lets through. *)
Inductive exn :=
  | UnicodeEncodeError
  | UnicodeDecodeError
  | SerialException
  | RuntimeError (msg : str).

#[global] Instance exn_eq_dec : EqDecision exn.
Proof. solve_decision. Defined.

(** A computation that returns or raises. *)
Inductive result (A : Type) :=
  | Ok (a : A)
  | Raise (e : exn).
Arguments Ok {A} a.
Arguments Raise {A} e.

(** [result] is a monad; stdpp's [x ← r; k] sequences two computations and
    lets the first exception through. *)
#[global] Instance result_ret : MRet result := λ A a, Ok a.
#[global] Instance result_bind : MBind result := λ A B k r,
  match r with
  | Ok a => k a
  | Raise e => Raise e
  end.

(** *** [str.isspace] on one code point

    CPython's [Py_UNICODE_ISSPACE]: the characters of bidirectional type WS, B
    or S, or of category Zs. *)
Definition isspace (c : N) : bool :=
  ((0x09 <=? c) && (c <=? 0x0D))
  || ((0x1C <=? c) && (c <=? 0x20))
  || (c =? 0x85) || (c =? 0xA0) || (c =? 0x1680)
  || ((0x2000 <=? c) && (c <=? 0x200A))
  || (c =? 0x2028) || (c =? 0x2029) || (c =? 0x202F)
  || (c =? 0x205F) || (c =? 0x3000).

Definition space (c : N) : Prop := isspace c = true.

(** *** [str.lstrip()], [str.rstrip()], [str.strip()] without argument *)
Fixpoint lstrip (s : str) : str :=
  match s with
  | [] => []
  | c :: s' => if isspace c then lstrip s' else s
  end.

Definition rstrip (s : str) : str := rev (lstrip (rev s)).

Definition strip (s : str) : str := rstrip (lstrip s).

(** *** The ["ascii"] codec, strict error handling *)
Definition is_ascii (c : N) : bool := c <? 128.

Definition ascii_char (c : N) : Prop := is_ascii c = true.
Definition ascii_byte (x : byte) : Prop := is_ascii (Byte.to_N x) = true.

Fixpoint encode_ascii (s : str) : result bytes :=
  match s with
  | [] => Ok []
  | c :: s' =>
      if is_ascii c then
        match Byte.of_N c with
        | Some b => bs ← encode_ascii s' ; Ok (b :: bs)
        | None => Raise UnicodeEncodeError
        end
      else Raise UnicodeEncodeError
  end.

Fixpoint decode_ascii (b : bytes) : result str :=
  match b with
  | [] => Ok []
  | x :: b' =>
      if is_ascii (Byte.to_N x) then
        s ← decode_ascii b' ; Ok (Byte.to_N x :: s)
      else Raise UnicodeDecodeError
  end.

(** ** Module constants *)

Definition LF : N := 10.
Definition END_OF_CONTENT : str := lit ".".

Definition DYGMA_VENDOR_ID_RAISE : N := 0x1209.
Definition DYGMA_VENDOR_ID_DEFY : N := 0x35EF.
Definition DYGMA_VENDOR_ID_RAISE2 : N := 0x35EF.
Definition RAISE_ANSI_PRODUCT_ID : N := 0x2201.
Definition RAISE_ISO_PRODUCT_ID : N := 0x2201.
Definition RAISE2_ANSI_PRODUCT_ID : N := 0x0021.
Definition RAISE2_ISO_PRODUCT_ID : N := 0x0023.

(** The set literal of the source, entry by entry. *)
Definition LIST_PORT_PID_VID_PAIRS : gset (N * N) :=
  {[ (DYGMA_VENDOR_ID_RAISE, RAISE_ANSI_PRODUCT_ID);
     (DYGMA_VENDOR_ID_RAISE, RAISE_ISO_PRODUCT_ID);
     (DYGMA_VENDOR_ID_RAISE2, RAISE2_ANSI_PRODUCT_ID);
     (DYGMA_VENDOR_ID_RAISE2, RAISE2_ISO_PRODUCT_ID);
     (DYGMA_VENDOR_ID_DEFY, RAISE2_ANSI_PRODUCT_ID);
     (DYGMA_VENDOR_ID_DEFY, RAISE2_ISO_PRODUCT_ID) ]}.

(** [sep.join(items)] *)
Fixpoint join (sep : str) (items : list str) : str :=
  match items with
  | [] => []
  | item :: items' =>
      match items' with
      | [] => item
      | _ :: _ => item ++ sep ++ join sep items'
      end
  end.

Definition UI_TO_NEURON : str := lit "<<".
Definition UI_FROM_NEURON : str := lit ">>".

(** [UI_TEMPLATE.format(content=content)], the template being
    [f"{UI_FROM_NEURON} {{content}}"] *)
Definition UI_TEMPLATE (content : str) : str :=
  UI_FROM_NEURON ++ lit " " ++ content.

(** ** The serial port, seen from the module

    [pyserial] is not part of the repository; the module uses four operations
    of [Serial]: the constructor (which opens the port), [write], [readline]
    and the context-manager exit (which closes the port).  The world below is
    what these operations act on. *)

(** The result of one [readline]: a line, or a failure of the read (the device
    was unplugged). *)
Inductive read_result :=
  | RLine (line : bytes)
  | RFail.

(** The history of an exchange: the operations on the port and the values
    handed to the consumer, oldest first. *)
Inductive event :=
  | EvOpen (port : str)
  | EvWrite (data : bytes)
  | EvRead (r : read_result)
  | EvYield (content : str)
  | EvClose.

Record world := World {
  w_ports : list str;        (* the device paths that can be opened *)
  w_tx_ok : bool;            (* whether a write succeeds *)
  w_rx : list read_result;   (* what the next calls of readline return *)
  w_open : bool;             (* whether the connection is open *)
  w_log : list event
}.

Definition record (e : event) (w : world) : world :=
  {| w_ports := w_ports w; w_tx_ok := w_tx_ok w; w_rx := w_rx w;
     w_open := w_open w; w_log := w_log w ++ [e] |}.

Definition set_open (b : bool) (w : world) : world :=
  {| w_ports := w_ports w; w_tx_ok := w_tx_ok w; w_rx := w_rx w;
     w_open := b; w_log := w_log w |}.

Definition set_rx (rx : list read_result) (w : world) : world :=
  {| w_ports := w_ports w; w_tx_ok := w_tx_ok w; w_rx := rx;
     w_open := w_open w; w_log := w_log w |}.

(** [Serial(port)] *)
Definition serial_open (port : str) (w : world) : result world :=
  if decide (port ∈ w_ports w)
  then Ok (record (EvOpen port) (set_open true w))
  else Raise SerialException.

(** [serial.write(data)] *)
Definition serial_write (data : bytes) (w : world) : result world :=
  if w_tx_ok w then Ok (record (EvWrite data) w) else Raise SerialException.

(** [Serial.__exit__], that is [serial.close()] *)
Definition serial_close (w : world) : world :=
  record EvClose (set_open false w).

(** ** NeuronIO *)

Module NeuronIO.

(** [output_line.decode(CHARSET).strip()] *)
Definition ndeserialize (output_line : bytes) : result str :=
  s ← decode_ascii output_line; Ok (strip s).

(** [f"{command.strip()}\n".encode(CHARSET)] *)
Definition nserialize (command : str) : result bytes :=
  encode_ascii (strip command ++ [LF]).

(** *** The generator [io]

    Calling a generator function runs none of its body: it returns a generator
    object.  The body runs, from one suspension point to the next, each time
    the consumer calls [next].  The points where [io] can rest are: before its
    first statement, at its [yield] (inside the [with] block), and after its
    end.  A [readline] on a port with nothing more to come never returns;
    the generator is then stuck inside the call. *)
Inductive generator :=
  | GenCreated (port command : str)
  | GenSuspended
  | GenBlocked
  | GenDone.

(** What a call of [next] does for its caller. *)
Inductive outcome :=
  | Yielded (content : str)
  | StopIteration
  | Raised (e : exn)
  | Blocks.

#[global] Instance outcome_eq_dec : EqDecision outcome.
Proof. solve_decision. Defined.

Definition io (port command : str) : generator := GenCreated port command.

(** An exception inside the [with] block: [__exit__] closes the port and the
    exception goes on to the consumer. *)
Definition leave_with (e : exn) (w : world) : outcome * generator * world :=
  (Raised e, GenDone, serial_close w).

(** The [while] loop from its head:
    [(content := ndeserialize(serial.readline())) != END_OF_CONTENT], then
    [yield content], or the end of the [with] block. *)
Definition loop (w : world) : outcome * generator * world :=
  match w_rx w with
  | [] => (Blocks, GenBlocked, w)
  | r :: rx =>
      let w := record (EvRead r) (set_rx rx w) in
      let line := match r with
                  | RLine l => Ok l
                  | RFail => Raise SerialException
                  end in
      match line ≫= ndeserialize with
      | Raise e => leave_with e w
      | Ok content =>
          if decide (content ≠ END_OF_CONTENT)
          then (Yielded content, GenSuspended, record (EvYield content) w)
          else (StopIteration, GenDone, serial_close w)
      end
  end.

(** [next(generator)] *)
Definition next (g : generator) (w : world) : outcome * generator * world :=
  match g with
  | GenCreated port command =>
      match serial_open port w with
      | Raise e => (Raised e, GenDone, w)
      | Ok w =>
          match nserialize command with
          | Raise e => leave_with e w
          | Ok data =>
              match serial_write data w with
              | Raise e => leave_with e w
              | Ok w => loop w
              end
          end
      end
  | GenSuspended => loop w
  | GenBlocked => (Blocks, GenBlocked, w)
  | GenDone => (StopIteration, GenDone, w)
  end.

(** [generator.close()], which is also what the finalisation of an unfinished
    generator object does: [GeneratorExit] is raised at the [yield], the
    [with] block is left through [__exit__]. *)
Definition close (g : generator) (w : world) : generator * world :=
  match g with
  | GenCreated _ _ => (GenDone, w)
  | GenSuspended => (GenDone, serial_close w)
  | GenBlocked => (GenBlocked, w)
  | GenDone => (GenDone, w)
  end.

(** *** Consumers

    A consumer is the sequence of its operations on the generator object.  A
    call of [next] that never returns is the consumer's last operation. *)
Inductive action :=
  | ANext
  | AClose.

#[global] Instance action_eq_dec : EqDecision action.
Proof. solve_decision. Defined.

Fixpoint run (script : list action) (g : generator) (w : world)
  : list outcome * generator * world :=
  match script with
  | [] => ([], g, w)
  | ANext :: script =>
      let '(o, g, w) := next g w in
      match o with
      | Blocks => ([o], g, w)
      | _ => let '(os, g, w) := run script g w in (o :: os, g, w)
      end
  | AClose :: script =>
      let '(g, w) := close g w in
      run script g w
  end.

(** The contents that a consumer was handed. *)
Definition yielded (os : list outcome) : list str :=
  omap (λ o, match o with Yielded content => Some content | _ => None end) os.

(** How an iteration over the generator, as [for content in generator] and
    [str.join] do it, ends: the generator is exhausted, it raised, or a read
    never returned. *)
Inductive ending :=
  | Exhausted
  | Failed (e : exn)
  | Stuck.

(** The iteration: [next] until it hands out no value.  [None] says that
    [fuel] calls of [next] were not enough. *)
Fixpoint iterate (fuel : nat) (g : generator) (w : world)
  : option (list str * ending * generator * world) :=
  match fuel with
  | O => None
  | S fuel =>
      let '(o, g, w) := next g w in
      match o with
      | Yielded content =>
          '(contents, e, g, w) ← iterate fuel g w;
          Some (content :: contents, e, g, w)
      | StopIteration => Some ([], Exhausted, g, w)
      | Raised e => Some ([], Failed e, g, w)
      | Blocks => Some ([], Stuck, g, w)
      end
  end.

End NeuronIO.

(** ** NeuronChat *)

(** The fields of [serial.tools.list_ports_common.ListPortInfo] that the
    module reads; [vid] and [pid] are [None] for a port that is not USB. *)
Record ListPortInfo := {
  device : str;
  vid : option N;
  pid : option N
}.

#[global] Instance ListPortInfo_eq_dec : EqDecision ListPortInfo.
Proof. solve_decision. Defined.

(** [(port_info.vid, port_info.pid) in LIST_PORT_PID_VID_PAIRS]; a tuple with
    a [None] equals no tuple of two integers. *)
Definition in_pairs (port_info : ListPortInfo) : Prop :=
  match vid port_info, pid port_info with
  | Some v, Some p => (v, p) ∈ LIST_PORT_PID_VID_PAIRS
  | _, _ => False
  end.

#[global] Instance in_pairs_dec port_info : Decision (in_pairs port_info).
Proof. unfold in_pairs. destruct (vid port_info), (pid port_info); apply _. Defined.

Module NeuronChat.

Record t := { _port : str }.

(** The generator expression over [list_serial_ports()], made a tuple; the
    enumeration of the operating system is the argument. *)
Definition find_ports_with_dygma_products (list_serial_ports : list ListPortInfo)
  : list ListPortInfo :=
  filter in_pairs list_serial_ports.

(** [not port] *)
Definition falsy (port : option str) : bool :=
  match port with
  | None | Some [] => true
  | Some (_ :: _) => false
  end.

(** [NeuronChat(port)]: what is printed, and the object or the exception.
    [len(ports) == 1] followed by [ports[0]] is the match on a list of one
    element. *)
Definition __init__ (list_serial_ports : list ListPortInfo) (port : option str)
  : list str * result t :=
  if falsy port then
    let ports := find_ports_with_dygma_products list_serial_ports in
    match ports with
    | [port_info] =>
        let port := device port_info in
        ([lit "Dygma keyboard detected on port " ++ port], Ok {| _port := port |})
    | _ =>
        ([], Raise (RuntimeError (lit "Could not find a connected Dygma keyboard")))
    end
  else
    ([], Ok {| _port := default [] port |}).

(** What a call does for its caller: it returns a string, it raises, or it
    never returns. *)
Inductive returned :=
  | Returns (s : str)
  | Raises (e : exn)
  | Hangs.

(** [self.talk(command, verbose)].  The generator is iterated to its end, in
    the verbose branch by [output.extend] and in the other by [str.join];
    each [next] that yields takes one pending read, so one call more than
    there are pending reads is all that the iteration can make. *)
Definition talk (self : t) (command : str) (verbose : bool) (w : world)
  : option (returned * world) :=
  let communication := NeuronIO.io (_port self) command in
  '(lines, e, _, w) ← NeuronIO.iterate (S (length (w_rx w))) communication w;
  let output :=
    if verbose
    then (UI_TO_NEURON ++ lit " " ++ command ++ lit ": ") :: (UI_TEMPLATE <$> lines)
    else lines in
  Some (match e with
        | NeuronIO.Exhausted => Returns (join [LF] output)
        | NeuronIO.Failed e => Raises e
        | NeuronIO.Stuck => Hangs
        end, w).

End NeuronChat.

(** ** Vocabulary of the exchange properties *)

(** The outcomes with which a generator finishes. *)
Definition terminal (o : NeuronIO.outcome) : Prop :=
  o = NeuronIO.StopIteration ∨ ∃ e, o = NeuronIO.Raised e.

(** Whether the generator rests inside the [with] block. *)
Definition inside_with (g : NeuronIO.generator) : bool :=
  match g with
  | NeuronIO.GenSuspended | NeuronIO.GenBlocked => true
  | NeuronIO.GenCreated _ _ | NeuronIO.GenDone => false
  end.

(** A read after which the loop yields nothing: a failed read, a line that
    does not decode, or the sentinel. *)
Definition final_read (r : read_result) : Prop :=
  match r with
  | RFail => True
  | RLine line =>
      ∀ content, NeuronIO.ndeserialize line = Ok content → content = END_OF_CONTENT
  end.

(** The three ways in which the loop head can go. *)
Inductive loop_spec (w : world)
  : NeuronIO.outcome * NeuronIO.generator * world → Prop :=
  | loop_spec_blocks :
      w_rx w = [] →
      loop_spec w (NeuronIO.Blocks, NeuronIO.GenBlocked, w)
  | loop_spec_yield line rx content :
      w_rx w = RLine line :: rx →
      NeuronIO.ndeserialize line = Ok content →
      content ≠ END_OF_CONTENT →
      loop_spec w (NeuronIO.Yielded content, NeuronIO.GenSuspended,
                   record (EvYield content)
                     (record (EvRead (RLine line)) (set_rx rx w)))
  | loop_spec_end r rx o :
      w_rx w = r :: rx →
      final_read r →
      terminal o →
      loop_spec w (o, NeuronIO.GenDone,
                   serial_close (record (EvRead r) (set_rx rx w))).

(** The world in which a started exchange reaches its loop: the port open,
    the command written. *)
Definition started (port : str) (data : bytes) (w : world) : world :=
  record (EvWrite data) (record (EvOpen port) (set_open true w)).

(** A generator about to evaluate the loop head in world [w0] at its next
    [next]: it rests at its [yield], or it is new and its port opens, its
    command encodes and its write succeeds. *)
Definition reading (g : NeuronIO.generator) (w w0 : world) : Prop :=
  (g = NeuronIO.GenSuspended ∧ w0 = w)
  ∨ (∃ port command data,
       g = NeuronIO.io port command
       ∧ port ∈ w_ports w
       ∧ w_tx_ok w = true
       ∧ NeuronIO.nserialize command = Ok data
       ∧ w0 = started port data w).

(** Where a call of [next] leaves the generator, by its outcome. *)
Definition after (o : NeuronIO.outcome) : NeuronIO.generator :=
  match o with
  | NeuronIO.Yielded _ => NeuronIO.GenSuspended
  | NeuronIO.Blocks => NeuronIO.GenBlocked
  | NeuronIO.StopIteration | NeuronIO.Raised _ => NeuronIO.GenDone
  end.

(** The history of the loop, against the reads it consumed: each line read is
    yielded before the next read; the history ends while the generator rests
    at a [yield] or inside a read ([xt_open]), with the close of a generator
    resting at a [yield] ([xt_close]), or with a final read and the close
    that follows it ([xt_end]). *)
Inductive exchange_trace : list read_result → list event → Prop :=
  | xt_open : exchange_trace [] []
  | xt_close : exchange_trace [] [EvClose]
  | xt_end r : final_read r → exchange_trace [r] [EvRead r; EvClose]
  | xt_yield line content rx tl :
      NeuronIO.ndeserialize line = Ok content →
      content ≠ END_OF_CONTENT →
      exchange_trace rx tl →
      exchange_trace (RLine line :: rx)
                     (EvRead (RLine line) :: EvYield content :: tl).

(** The values yielded according to a history. *)
Definition yields (log : list event) : list str :=
  omap (λ e, match e with EvYield content => Some content | _ => None end) log.

Definition is_write (e : event) : Prop :=
  match e with
  | EvWrite _ => True
  | _ => False
  end.

(** The number of calls of [next] in a script. *)
Definition nexts (script : list NeuronIO.action) : nat :=
  length (filter (λ a, a = NeuronIO.ANext) script).

(** The data written according to a history. *)
Definition writes (log : list event) : list bytes :=
  omap (λ e, match e with EvWrite data => Some data | _ => None end) log.

(** A byte that is ASCII whitespace, as the line terminators are. *)
Definition space_byte (x : byte) : Prop :=
  space (Byte.to_N x) ∧ ascii_byte x.

(** * Properties *)

(** ** [str.strip] *)

Section strip.
Implicit Types (s t : str) (c : N).

Lemma lstrip_split s : ∃ ws, s = ws ++ lstrip s ∧ Forall space ws.
Proof.
  induction s as [|c s [ws [Hs Hws]]]; [by exists []|].
  simpl. destruct (isspace c) eqn:Hc.
  - exists (c :: ws). split; [by rewrite Hs at 1|by constructor].
  - by exists [].
Qed.

Lemma lstrip_head s c t : lstrip s = c :: t → isspace c = false.
Proof.
  induction s as [|a s IH]; [done|]. simpl.
  destruct (isspace a) eqn:Ha; [done|]. by intros [= <- _].
Qed.

Lemma lstrip_cons_nonspace c t : isspace c = false → lstrip (c :: t) = c :: t.
Proof. intros Hc. simpl. by rewrite Hc. Qed.

Lemma lstrip_idem s : lstrip (lstrip s) = lstrip s.
Proof.
  destruct (lstrip s) as [|c t] eqn:Hs; [done|].
  apply lstrip_cons_nonspace. by eapply lstrip_head.
Qed.

Lemma lstrip_snoc_nonspace s c :
  isspace c = false → lstrip (s ++ [c]) = lstrip s ++ [c].
Proof.
  intros Hc. induction s as [|a s IH]; simpl; [by rewrite Hc|].
  by destruct (isspace a).
Qed.

Lemma rstrip_split s : ∃ ws, s = rstrip s ++ ws ∧ Forall space ws.
Proof.
  destruct (lstrip_split (rev s)) as [ws [Hs Hws]].
  exists (rev ws). split.
  - unfold rstrip. rewrite <- rev_app_distr, <- Hs. by rewrite rev_involutive.
  - by apply Forall_rev.
Qed.

Lemma rstrip_idem s : rstrip (rstrip s) = rstrip s.
Proof. unfold rstrip. by rewrite rev_involutive, lstrip_idem. Qed.

Lemma rstrip_snoc_space s c : isspace c = true → rstrip (s ++ [c]) = rstrip s.
Proof. intros Hc. unfold rstrip. rewrite rev_app_distr. simpl. by rewrite Hc. Qed.

Lemma rstrip_snoc_nonspace s c :
  isspace c = false → rstrip (s ++ [c]) = s ++ [c].
Proof.
  intros Hc. unfold rstrip. rewrite rev_app_distr. simpl. rewrite Hc.
  simpl. by rewrite rev_involutive.
Qed.

Lemma rstrip_cons_nonspace c t :
  isspace c = false → rstrip (c :: t) = c :: rstrip t.
Proof.
  intros Hc. unfold rstrip. simpl.
  rewrite lstrip_snoc_nonspace by done. by rewrite rev_app_distr.
Qed.

Lemma rstrip_last s c : last (rstrip s) = Some c → isspace c = false.
Proof.
  unfold rstrip. destruct (lstrip (rev s)) as [|a t] eqn:Hs; [done|].
  simpl. rewrite last_snoc. intros [= <-]. by eapply lstrip_head.
Qed.

(** [strip] removes a run of whitespace at each end, and what it leaves
    neither starts nor ends with whitespace. *)
Lemma strip_split s :
  ∃ pre post, s = pre ++ strip s ++ post ∧ Forall space pre ∧ Forall space post.
Proof.
  destruct (lstrip_split s) as [pre [Hs Hpre]].
  destruct (rstrip_split (lstrip s)) as [post [Ht Hpost]].
  exists pre, post. split; [|done]. unfold strip. by rewrite <- Ht.
Qed.

Lemma strip_head s c : head (strip s) = Some c → isspace c = false.
Proof.
  unfold strip. destruct (lstrip s) as [|a t] eqn:Hs; [done|].
  assert (isspace a = false) as Ha by (by eapply lstrip_head).
  rewrite rstrip_cons_nonspace by done. by intros [= <-].
Qed.

Lemma strip_last s c : last (strip s) = Some c → isspace c = false.
Proof. apply rstrip_last. Qed.

Lemma strip_Forall (P : N → Prop) s : Forall P s → Forall P (strip s).
Proof.
  destruct (strip_split s) as (pre & post & Hs & _). intros H.
  rewrite Hs in H. by apply Forall_app in H as [_ [H _]%Forall_app].
Qed.

(** A string that [strip] produced is unchanged by [strip], also with a
    newline behind it. *)
Lemma strip_strip_newline s : strip (strip s ++ [LF]) = strip s.
Proof.
  unfold strip at 2 3. destruct (lstrip s) as [|c t] eqn:Hs; [done|].
  assert (isspace c = false) as Hc by (by eapply lstrip_head).
  rewrite (rstrip_cons_nonspace c t) by done. unfold strip.
  change ((c :: rstrip t) ++ [LF]) with (c :: (rstrip t ++ [LF])).
  rewrite lstrip_cons_nonspace by done.
  rewrite rstrip_cons_nonspace by done.
  by rewrite rstrip_snoc_space, rstrip_idem.
Qed.

Lemma strip_idem s : strip (strip s) = strip s.
Proof.
  unfold strip at 2 3. destruct (lstrip s) as [|c t] eqn:Hs; [done|].
  assert (isspace c = false) as Hc by (by eapply lstrip_head).
  rewrite (rstrip_cons_nonspace c t) by done. unfold strip.
  rewrite lstrip_cons_nonspace by done.
  rewrite rstrip_cons_nonspace by done.
  by rewrite rstrip_idem.
Qed.
End strip.

(** ** The ["ascii"] codec *)

Section codec.
Implicit Types (s : str) (b : bytes).

Lemma is_ascii_lt c : is_ascii c = true ↔ c < 128.
Proof. apply N.ltb_lt. Qed.

Lemma of_N_ascii c : is_ascii c = true → ∃ x, Byte.of_N c = Some x.
Proof.
  intros Hc%is_ascii_lt. destruct (Byte.of_N c) as [x|] eqn:Hx; [by exists x|].
  apply Byte.of_N_None_iff in Hx. lia.
Qed.

Lemma encode_ascii_total s : Forall ascii_char s → ∃ b, encode_ascii s = Ok b.
Proof.
  induction 1 as [|c s Hc _ [b Hb]]; [by exists []|].
  destruct (of_N_ascii c Hc) as [x Hx].
  exists (x :: b). simpl. unfold ascii_char in Hc. by rewrite Hc, Hx, Hb.
Qed.

Lemma encode_ascii_inv s b :
  encode_ascii s = Ok b → Forall ascii_char s ∧ Byte.to_N <$> b = s.
Proof.
  revert b. induction s as [|c s IH]; intros b; simpl.
  - by intros [= <-].
  - destruct (is_ascii c) eqn:Hc; [|done].
    destruct (Byte.of_N c) as [x|] eqn:Hx; [|done].
    destruct (encode_ascii s) as [bs|] eqn:Hs; [|done].
    intros [= <-]. destruct (IH bs eq_refl) as [Hall Hmap].
    split; [by constructor|]. rewrite fmap_cons.
    by rewrite Hmap, (Byte.to_of_N c Hx).
Qed.

Lemma encode_ascii_raise s e :
  encode_ascii s = Raise e → e = UnicodeEncodeError ∧ ¬ Forall ascii_char s.
Proof.
  induction s as [|c s IH]; simpl; [done|].
  destruct (is_ascii c) eqn:Hc.
  - destruct (of_N_ascii c Hc) as [x ->].
    destruct (encode_ascii s) as [bs|e'] eqn:Hs; [done|].
    intros [= <-]. destruct (IH eq_refl) as [-> Hn].
    split; [done|]. intros [_ H]%Forall_cons. by apply Hn.
  - intros [= <-]. split; [done|]. intros [H _]%Forall_cons.
    unfold ascii_char in H. congruence.
Qed.

Lemma encode_ascii_app s1 s2 :
  encode_ascii (s1 ++ s2)
  = (b1 ← encode_ascii s1; b2 ← encode_ascii s2; Ok (b1 ++ b2)).
Proof.
  induction s1 as [|c s1 IH]; simpl.
  - by destruct (encode_ascii s2).
  - destruct (is_ascii c); [|done]. destruct (Byte.of_N c); [|done].
    rewrite IH. destruct (encode_ascii s1); [|done]. simpl.
    by destruct (encode_ascii s2).
Qed.

Lemma decode_ascii_inv b s :
  decode_ascii b = Ok s → Forall ascii_byte b ∧ s = Byte.to_N <$> b.
Proof.
  revert s. induction b as [|x b IH]; intros s; simpl.
  - by intros [= <-].
  - destruct (is_ascii (Byte.to_N x)) eqn:Hx; [|done].
    destruct (decode_ascii b) as [s'|] eqn:Hb; [|done].
    intros [= <-]. destruct (IH s' eq_refl) as [Hall ->].
    split; [by constructor|done].
Qed.

Lemma decode_ascii_total b :
  Forall ascii_byte b → decode_ascii b = Ok (Byte.to_N <$> b).
Proof.
  induction 1 as [|x b Hx _ IH]; [done|].
  simpl. unfold ascii_byte in Hx. by rewrite Hx, IH.
Qed.

Lemma decode_ascii_raise b e :
  decode_ascii b = Raise e → e = UnicodeDecodeError ∧ Exists (λ x, 0x7F < Byte.to_N x) b.
Proof.
  induction b as [|x b IH]; simpl; [done|].
  destruct (is_ascii (Byte.to_N x)) eqn:Hx.
  - destruct (decode_ascii b) as [s'|e'] eqn:Hb; [done|].
    intros [= <-]. destruct (IH eq_refl) as [-> Hex]. split; [done|].
    by apply Exists_cons_tl.
  - intros [= <-]. split; [done|]. apply Exists_cons_hd.
    apply N.ltb_ge in Hx. lia.
Qed.

Lemma decode_encode_ascii s b : encode_ascii s = Ok b → decode_ascii b = Ok s.
Proof.
  revert b. induction s as [|c s IH]; intros b; simpl.
  - by intros [= <-].
  - destruct (is_ascii c) eqn:Hc; [|done].
    destruct (Byte.of_N c) as [x|] eqn:Hx; [|done].
    destruct (encode_ascii s) as [bs|] eqn:Hs; [|done].
    intros [= <-]. simpl.
    by rewrite (Byte.to_of_N c Hx), Hc, (IH bs eq_refl).
Qed.
End codec.

(** ** The codec of [NeuronIO] *)

Section neuron_codec.
Import NeuronIO.
Implicit Types (command s : str) (b wire : bytes).

Lemma nserialize_total command :
  Forall ascii_char (strip command) →
  ∃ body, encode_ascii (strip command) = Ok body
          ∧ nserialize command = Ok (body ++ [x0a]).
Proof.
  intros [body Hbody]%encode_ascii_total. exists body. split; [done|].
  unfold nserialize. by rewrite encode_ascii_app, Hbody.
Qed.

Lemma nserialize_inv command wire :
  nserialize command = Ok wire →
  ∃ body, encode_ascii (strip command) = Ok body ∧ wire = body ++ [x0a].
Proof.
  unfold nserialize. rewrite encode_ascii_app.
  destruct (encode_ascii (strip command)) as [body|]; [|done].
  intros [= <-]. by exists body.
Qed.

Lemma nserialize_raise command e :
  nserialize command = Raise e →
  e = UnicodeEncodeError ∧ ¬ Forall ascii_char (strip command).
Proof.
  intros [-> Hn]%encode_ascii_raise. split; [done|].
  intros H. apply Hn, Forall_app. split; [done|]. by repeat constructor.
Qed.

(** The round trip needs no assumption on newlines inside the command. *)
Lemma ndeserialize_nserialize command wire :
  nserialize command = Ok wire → ndeserialize wire = Ok (strip command).
Proof.
  unfold nserialize, ndeserialize. intros ->%decode_encode_ascii.
  simpl. by rewrite strip_strip_newline.
Qed.

Lemma ndeserialize_ok b s :
  ndeserialize b = Ok s ↔ Forall ascii_byte b ∧ s = strip (Byte.to_N <$> b).
Proof.
  unfold ndeserialize. split.
  - destruct (decode_ascii b) as [s'|] eqn:Hb; [|done].
    apply decode_ascii_inv in Hb as [Hall ->]. by intros [= <-].
  - intros [Hall ->]. by rewrite decode_ascii_total.
Qed.

Lemma ndeserialize_raise b e :
  ndeserialize b = Raise e ↔
  e = UnicodeDecodeError ∧ Exists (λ x, 0x7F < Byte.to_N x) b.
Proof.
  unfold ndeserialize. split.
  - destruct (decode_ascii b) as [s'|e'] eqn:Hb; [done|].
    intros [= <-]. by apply decode_ascii_raise.
  - intros [-> Hex]. destruct (decode_ascii b) as [s'|e'] eqn:Hb.
    + apply decode_ascii_inv in Hb as [Hall _]. exfalso.
      apply Exists_exists in Hex as (x & Hx & Hgt).
      rewrite Forall_forall in Hall. apply Hall, is_ascii_lt in Hx. lia.
    + simpl. by apply decode_ascii_raise in Hb as [-> _].
Qed.
End neuron_codec.

(** C3: for a command without a newline in it and made of ASCII characters,
    [nserialize] returns a wire form, and [ndeserialize] of that wire form is
    the command with the whitespace at both ends removed. *)
Theorem codec_round_trip (command : str) :
  LF ∉ command →
  Forall ascii_char command →
  ∃ wire, NeuronIO.nserialize command = Ok wire
          ∧ NeuronIO.ndeserialize wire = Ok (strip command).
Proof.
  intros _ Hascii.
  destruct (nserialize_total command) as (body & _ & Hwire);
    [by apply strip_Forall|].
  eexists. split; [done|]. by apply ndeserialize_nserialize.
Qed.

Lemma codec_round_trip_witness :
  ∃ wire, NeuronIO.nserialize (lit "  led.mode 2 ") = Ok wire
          ∧ NeuronIO.ndeserialize wire = Ok (lit "led.mode 2").
Proof.
  apply (codec_round_trip (lit "  led.mode 2 ")).
  - vm_compute. intros H. repeat (apply elem_of_cons in H as [H|H]; [done|]).
    by apply elem_of_nil in H.
  - repeat constructor.
Defined.

(** C8, as stated, fails: a command with a character outside ASCII has no
    wire form at all. *)
Lemma nserialize_not_total :
  NeuronIO.nserialize [0xE9] = Raise UnicodeEncodeError.
Proof. reflexivity. Qed.

(** C8, amended: for a command whose stripped text is ASCII, [nserialize]
    returns the encoded stripped text followed by one newline; the byte before
    that newline, if any, is not whitespace (so not a newline), and when the
    stripped text holds no newline the final byte is the only newline.  For
    every other command [nserialize] raises the encoding error of the codec
    and returns no output. *)
Theorem nserialize_one_newline (command : str) :
  (Forall ascii_char (strip command) →
   ∃ body, NeuronIO.nserialize command = Ok (body ++ [x0a])
           ∧ encode_ascii (strip command) = Ok body
           ∧ (∀ x, last body = Some x → isspace (Byte.to_N x) = false)
           ∧ last body ≠ Some x0a
           ∧ (LF ∉ strip command → x0a ∉ body))
  ∧ (¬ Forall ascii_char (strip command) →
     NeuronIO.nserialize command = Raise UnicodeEncodeError).
Proof.
  split.
  - intros Hascii.
    destruct (nserialize_total command Hascii) as (body & Hbody & Hwire).
    exists body. split; [done|]. split; [done|].
    apply encode_ascii_inv in Hbody as [_ Hmap].
    assert (∀ x, last body = Some x → isspace (Byte.to_N x) = false) as Hlast.
    { intros x Hx. apply (strip_last command). rewrite <- Hmap.
      by rewrite fmap_last, Hx. }
    split; [done|]. split.
    + intros Hx. by apply Hlast in Hx.
    + intros Hnl Hin. apply Hnl. rewrite <- Hmap.
      change LF with (Byte.to_N x0a). by apply list_elem_of_fmap_2.
  - intros Hn. destruct (NeuronIO.nserialize command) as [wire|e] eqn:Hwire.
    + exfalso. apply Hn. apply nserialize_inv in Hwire as (body & Hbody & _).
      by apply encode_ascii_inv in Hbody as [? _].
    + by apply nserialize_raise in Hwire as [-> _].
Qed.

Lemma nserialize_one_newline_witness :
  (∃ body, NeuronIO.nserialize (lit "help" ++ [0x20; 0x09; LF; LF]) = Ok (body ++ [x0a])
           ∧ encode_ascii (strip (lit "help" ++ [0x20; 0x09; LF; LF])) = Ok body
           ∧ (∀ x, last body = Some x → isspace (Byte.to_N x) = false)
           ∧ last body ≠ Some x0a
           ∧ (LF ∉ strip (lit "help" ++ [0x20; 0x09; LF; LF]) → x0a ∉ body))
  ∧ NeuronIO.nserialize (lit "caf" ++ [0xE9; 0x20]) = Raise UnicodeEncodeError.
Proof.
  split.
  - apply (proj1 (nserialize_one_newline (lit "help" ++ [0x20; 0x09; LF; LF]))).
    repeat constructor.
  - apply (proj2 (nserialize_one_newline (lit "caf" ++ [0xE9; 0x20]))).
    intros H. vm_compute in H.
    do 3 (apply Forall_cons in H as [_ H]).
    apply Forall_cons in H as [H _]. discriminate H.
Defined.

(** ** Device discovery *)

Section discovery.
Import NeuronChat.
Implicit Types (d : ListPortInfo) (l : list ListPortInfo).

(** The six entries of the set literal are three different pairs. *)
Lemma in_pairs_iff d :
  in_pairs d ↔
  (vid d, pid d) ∈ [(Some 0x1209, Some 0x2201);
                    (Some 0x35EF, Some 0x0021);
                    (Some 0x35EF, Some 0x0023)].
Proof.
  unfold in_pairs, LIST_PORT_PID_VID_PAIRS.
  destruct (vid d) as [v|], (pid d) as [p|]; set_unfold;
    unfold DYGMA_VENDOR_ID_RAISE, DYGMA_VENDOR_ID_RAISE2, DYGMA_VENDOR_ID_DEFY,
      RAISE_ANSI_PRODUCT_ID, RAISE_ISO_PRODUCT_ID, RAISE2_ANSI_PRODUCT_ID,
      RAISE2_ISO_PRODUCT_ID; intuition congruence.
Qed.

Lemma find_ports_singleton l d :
  find_ports_with_dygma_products l = [d] →
  __init__ l None
  = ([lit "Dygma keyboard detected on port " ++ device d],
     Ok {| _port := device d |}).
Proof. unfold __init__. simpl. by intros ->. Qed.

Lemma init_discovery_raises l port :
  falsy port = true →
  (∃ e, (__init__ l port).2 = Raise e)
  ↔ length (find_ports_with_dygma_products l) ≠ 1%nat.
Proof.
  intros Hport. unfold __init__. rewrite Hport.
  destruct (find_ports_with_dygma_products l) as [|d [|d' ports]]; simpl.
  - split; [done|]. by eexists.
  - split; [by intros [e ?]|done].
  - split; [done|]. by eexists.
Qed.
End discovery.

(** C1, as stated, fails: a device with the pair (0x35EF, 0x2201), one of the
    four pairs of the claim, is not returned. *)
Lemma find_ports_rejects_35EF_2201 :
  NeuronChat.find_ports_with_dygma_products
    [{| device := lit "/dev/ttyACM0"; vid := Some 0x35EF; pid := Some 0x2201 |}]
  = [].
Proof. by vm_compute. Qed.

(** C1, amended: a device is in the result of
    [find_ports_with_dygma_products] exactly when it is in the enumeration and
    its (vid, pid) pair is one of (0x1209, 0x2201), (0x35EF, 0x0021) and
    (0x35EF, 0x0023); the result lists these devices in the order of the
    enumeration. *)
Theorem find_ports_allow_list (list_serial_ports : list ListPortInfo) :
  (∀ d, d ∈ NeuronChat.find_ports_with_dygma_products list_serial_ports
        ↔ d ∈ list_serial_ports
          ∧ (vid d, pid d) ∈ [(Some 0x1209, Some 0x2201);
                              (Some 0x35EF, Some 0x0021);
                              (Some 0x35EF, Some 0x0023)])
  ∧ NeuronChat.find_ports_with_dygma_products list_serial_ports
    `sublist_of` list_serial_ports.
Proof.
  unfold NeuronChat.find_ports_with_dygma_products. split.
  - intros d. rewrite list_elem_of_filter, in_pairs_iff. tauto.
  - apply sublist_filter.
Qed.

(** C7: without a port, the constructor raises exactly when discovery does
    not find one single candidate; with one single candidate it returns the
    object bound to the device path of that candidate. *)
Theorem init_without_port (list_serial_ports : list ListPortInfo) :
  ((∃ e, (NeuronChat.__init__ list_serial_ports None).2 = Raise e)
   ↔ length (NeuronChat.find_ports_with_dygma_products list_serial_ports) ≠ 1%nat)
  ∧ (∀ d, NeuronChat.find_ports_with_dygma_products list_serial_ports = [d] →
          (NeuronChat.__init__ list_serial_ports None).2
          = Ok {| NeuronChat._port := device d |}).
Proof.
  split.
  - by apply init_discovery_raises.
  - intros d Hd. by rewrite (find_ports_singleton _ d Hd).
Qed.

Lemma init_without_port_witness :
  (NeuronChat.__init__
     [{| device := lit "/dev/ttyS0"; vid := None; pid := None |};
      {| device := lit "/dev/ttyACM0"; vid := Some 0x35EF; pid := Some 0x0021 |}]
     None).2
  = Ok {| NeuronChat._port := lit "/dev/ttyACM0" |}.
Proof.
  apply (proj2 (init_without_port
           [{| device := lit "/dev/ttyS0"; vid := None; pid := None |};
            {| device := lit "/dev/ttyACM0"; vid := Some 0x35EF; pid := Some 0x0021 |}])
           {| device := lit "/dev/ttyACM0"; vid := Some 0x35EF; pid := Some 0x0021 |}).
  vm_compute. reflexivity.
Defined.

(** C10: the constructor tests the truth value of [port]: the empty string is
    treated as [None], discovery runs, and the constructor raises exactly when
    the number of candidates is not one; any other string is bound as it is,
    whatever is attached. *)
Theorem init_falsy_port (list_serial_ports : list ListPortInfo) :
  NeuronChat.__init__ list_serial_ports (Some [])
  = NeuronChat.__init__ list_serial_ports None
  ∧ ((∃ e, (NeuronChat.__init__ list_serial_ports (Some [])).2 = Raise e)
     ↔ length (NeuronChat.find_ports_with_dygma_products list_serial_ports) ≠ 1%nat)
  ∧ (∀ port, NeuronChat.falsy port = true ↔ port = None ∨ port = Some [])
  ∧ (∀ c port, NeuronChat.__init__ list_serial_ports (Some (c :: port))
               = ([], Ok {| NeuronChat._port := c :: port |})).
Proof.
  split; [done|]. split; [by apply init_discovery_raises|]. split; [|done].
  intros [[|c port]|]; simpl; intuition congruence.
Qed.

(** ** The exchange *)

Section exchange.
Import NeuronIO.
Implicit Types (w : world) (g : generator) (o : outcome)
  (script : list action) (os : list outcome).

Lemma loop_specP w : loop_spec w (loop w).
Proof.
  unfold loop. destruct (w_rx w) as [|r rx] eqn:Hrx; [by constructor|].
  destruct r as [line|]; simpl.
  - destruct (ndeserialize line) as [content|e] eqn:Hline; simpl.
    + destruct (decide (content ≠ END_OF_CONTENT)) as [Hne|Heq].
      * by econstructor.
      * apply dec_stable in Heq. eapply loop_spec_end; [done| |by left].
        intros content' Hc. congruence.
    + eapply loop_spec_end; [done| |right; by eexists].
      intros content' Hc. congruence.
  - eapply loop_spec_end; [done|done|right; by eexists].
Qed.

Lemma loop_sentinel w line rx :
  w_rx w = RLine line :: rx →
  ndeserialize line = Ok END_OF_CONTENT →
  loop w = (StopIteration, GenDone,
            serial_close (record (EvRead (RLine line)) (set_rx rx w))).
Proof. intros Hrx Hline. unfold loop. by rewrite Hrx; simpl; rewrite Hline. Qed.

Lemma loop_yield w line rx content :
  w_rx w = RLine line :: rx →
  ndeserialize line = Ok content →
  content ≠ END_OF_CONTENT →
  loop w = (Yielded content, GenSuspended,
            record (EvYield content) (record (EvRead (RLine line)) (set_rx rx w))).
Proof.
  intros Hrx Hline Hne. unfold loop. rewrite Hrx; simpl; rewrite Hline; simpl.
  by rewrite decide_True.
Qed.

Lemma loop_raise w line rx e :
  w_rx w = RLine line :: rx →
  ndeserialize line = Raise e →
  loop w = (Raised e, GenDone,
            serial_close (record (EvRead (RLine line)) (set_rx rx w))).
Proof. intros Hrx Hline. unfold loop. by rewrite Hrx; simpl; rewrite Hline. Qed.

(** The first [next] of an exchange whose port opens, whose command encodes
    and whose write succeeds: open, write, then the loop. *)
Lemma next_created port command data w :
  port ∈ w_ports w →
  w_tx_ok w = true →
  nserialize command = Ok data →
  next (io port command) w = loop (started port data w).
Proof.
  intros Hport Htx Hdata. unfold next, io, serial_open.
  rewrite decide_True by done. rewrite Hdata. unfold serial_write.
  simpl. by rewrite Htx.
Qed.

(** A finished generator stays finished and touches nothing. *)
Lemma run_done script w :
  run script GenDone w = (replicate (nexts script) StopIteration, GenDone, w).
Proof.
  induction script as [|[|] script IH]; [done| |]; simpl; by rewrite IH.
Qed.

Lemma nexts_replicate n : nexts (replicate n ANext) = n.
Proof.
  unfold nexts. induction n as [|n IH]; [done|].
  change (replicate (S n) ANext) with (ANext :: replicate n ANext).
  rewrite filter_cons_True by done. simpl. by rewrite IH.
Qed.

Lemma run_next script g w :
  run (ANext :: script) g w
  = let '(o, g', w') := next g w in
    match o with
    | Blocks => ([o], g', w')
    | _ => let '(os, g'', w'') := run script g' w' in (o :: os, g'', w'')
    end.
Proof. done. Qed.

(** A consumer that keeps calling [next] on a generator resting at its
    [yield], against a device that sends lines and then the sentinel. *)
Lemma drain_suspended lines contents sentinel rest k w :
  Forall2 (λ line content,
             ndeserialize line = Ok content ∧ content ≠ END_OF_CONTENT)
          lines contents →
  ndeserialize sentinel = Ok END_OF_CONTENT →
  w_rx w = (RLine <$> lines) ++ RLine sentinel :: rest →
  ∃ w', run (replicate (length lines + 1 + k) ANext) GenSuspended w
        = ((Yielded <$> contents) ++ replicate (1 + k) StopIteration, GenDone, w')
        ∧ w_open w' = false ∧ w_rx w' = rest ∧ w_ports w' = w_ports w.
Proof.
  intros Hlines Hsentinel. revert w.
  induction Hlines as [|line content lines contents [Hline Hne] _ IH];
    intros w Hrx.
  - eexists. simpl replicate. rewrite run_next. simpl next.
    rewrite (loop_sentinel _ _ _ Hrx Hsentinel), run_done, nexts_replicate.
    done.
  - simpl in Hrx. simpl replicate. rewrite run_next. simpl next.
    rewrite (loop_yield _ _ _ _ Hrx Hline Hne).
    edestruct IH as (w' & -> & Hopen & Hrest & Hports); [done|].
    by exists w'.
Qed.
End exchange.

(** C2: against a device that sends N lines, each of which decodes to a
    content other than the sentinel, and then a sentinel line, a consumer that
    keeps calling [next] on [io port command] is handed the N decoded contents
    in the order received and then [StopIteration], at call N + 1 and at every
    later call: the sentinel is not yielded, and nothing that the device sends
    after it is read.  With N = 0 the first call already gives
    [StopIteration]. *)
Theorem io_yields_lines port command data lines contents sentinel rest k w :
  port ∈ w_ports w →
  w_tx_ok w = true →
  NeuronIO.nserialize command = Ok data →
  Forall2 (λ line content,
             NeuronIO.ndeserialize line = Ok content ∧ content ≠ END_OF_CONTENT)
          lines contents →
  NeuronIO.ndeserialize sentinel = Ok END_OF_CONTENT →
  w_rx w = (RLine <$> lines) ++ RLine sentinel :: rest →
  ∃ w', NeuronIO.run (replicate (length lines + 1 + k) NeuronIO.ANext)
                     (NeuronIO.io port command) w
        = ((NeuronIO.Yielded <$> contents)
             ++ replicate (1 + k) NeuronIO.StopIteration,
           NeuronIO.GenDone, w')
        ∧ w_open w' = false ∧ w_rx w' = rest.
Proof.
  intros Hport Htx Hdata Hlines Hsentinel Hrx.
  destruct (drain_suspended lines contents sentinel rest k (started port data w))
    as (w' & Hrun & Hopen & Hrest & _); [done..|].
  exists w'. split; [|done]. rewrite <- Hrun.
  replace (length lines + 1 + k)%nat with (S (length lines + k)) by lia.
  simpl replicate. rewrite !run_next. by rewrite (next_created _ _ data).
Qed.

Lemma io_yields_lines_witness :
  ∃ w', NeuronIO.run [NeuronIO.ANext; NeuronIO.ANext]
          (NeuronIO.io (lit "/dev/ttyFAKE") (lit "version"))
          (World [lit "/dev/ttyFAKE"] true
             [RLine (blit "1.2.3" ++ CRLF); RLine (blit "." ++ CRLF)] false [])
        = ([NeuronIO.Yielded (lit "1.2.3"); NeuronIO.StopIteration],
           NeuronIO.GenDone, w')
        ∧ w_open w' = false ∧ w_rx w' = [].
Proof.
  apply (io_yields_lines (lit "/dev/ttyFAKE") (lit "version")
           (blit "version" ++ [x0a])
           [blit "1.2.3" ++ CRLF] [lit "1.2.3"] (blit "." ++ CRLF) [] 0
           (World [lit "/dev/ttyFAKE"] true
              [RLine (blit "1.2.3" ++ CRLF); RLine (blit "." ++ CRLF)] false [])).
  - constructor.
  - reflexivity.
  - reflexivity.
  - constructor; [|constructor]. split; [reflexivity|]. by vm_compute.
  - reflexivity.
  - reflexivity.
Defined.

(** ** The order of the operations of an exchange *)

Section exchange_order.
Import NeuronIO.
Implicit Types (w : world) (g : generator) (o : outcome)
  (script : list action) (os : list outcome).

Lemma next_reading g w w0 : reading g w w0 → next g w = loop w0.
Proof.
  intros [[-> ->]|(port & command & data & -> & Hport & Htx & Hdata & ->)];
    [done|]. by apply next_created.
Qed.

Lemma exchange_trace_no_write consumed tail :
  exchange_trace consumed tail → Forall (λ e, ¬ is_write e) tail.
Proof. induction 1; repeat constructor; auto. Qed.

(** The history that a consumer produces from a generator resting at its
    [yield]. *)
Lemma run_suspended_trace script w os g' w' :
  run script GenSuspended w = (os, g', w') →
  ∃ consumed tail,
    w_log w' = w_log w ++ tail
    ∧ w_rx w = consumed ++ w_rx w'
    ∧ exchange_trace consumed tail
    ∧ yields tail = yielded os.
Proof.
  revert w os g' w'. induction script as [|[|] script IH]; intros w os g' w'.
  - intros [= <- <- <-]. exists [], []. rewrite app_nil_r. by repeat constructor.
  - rewrite run_next. simpl next. destruct (loop_specP w) as
      [Hrx|line rx content Hrx Hline Hne|r rx o Hrx Hfinal Hterm].
    + intros [= <- <- <-]. exists [], []. rewrite app_nil_r.
      by repeat constructor.
    + destruct (run script GenSuspended _) as [[os1 g1] w1] eqn:Hrun.
      intros [= <- <- <-].
      destruct (IH _ _ _ _ Hrun) as (consumed & tail & Hlog & Hrx' & Htrace & Hy).
      exists (RLine line :: consumed),
             (EvRead (RLine line) :: EvYield content :: tail).
      split; [|split; [|split]].
      * rewrite Hlog. simpl. by rewrite <- !app_assoc.
      * rewrite Hrx. simpl in Hrx'. by rewrite Hrx'.
      * by constructor.
      * change (yields (EvRead (RLine line) :: EvYield content :: tail))
          with (content :: yields tail).
        change (yielded (Yielded content :: os1))
          with (content :: yielded os1).
        by rewrite Hy.
    + assert (yielded [o] = []) as Ho by (by destruct Hterm as [->|[e ->]]).
      assert (match o with
              | Blocks => ([o], GenDone,
                           serial_close (record (EvRead r) (set_rx rx w)))
              | _ => let '(os, g'', w'') :=
                       run script GenDone
                         (serial_close (record (EvRead r) (set_rx rx w))) in
                     (o :: os, g'', w'')
              end
              = (o :: replicate (nexts script) StopIteration, GenDone,
                 serial_close (record (EvRead r) (set_rx rx w)))) as ->.
      { rewrite run_done. by destruct Hterm as [->|[e ->]]. }
      intros [= <- <- <-]. exists [r], [EvRead r; EvClose].
      split; [|split; [|split]].
      * simpl. by rewrite <- !app_assoc.
      * by rewrite Hrx.
      * by constructor.
      * change (o :: ?l) with ([o] ++ l). unfold yielded in *.
        rewrite omap_app, Ho. simpl.
        by induction (nexts script) as [|n IHn].
  - simpl. rewrite run_done. intros [= <- <- <-]. exists [], [EvClose].
    split; [done|]. split; [done|]. split; [constructor|].
    unfold yielded. by induction (nexts script) as [|n IHn].
Qed.
End exchange_order.

(** C5: in an exchange that has been started (the consumer has called [next]
    at least once) and whose port opens, whose command encodes and whose write
    succeeds, the history is: the port opened, the encoded command written,
    and then a history without any write, in which every line read is
    yielded, decoded, before the next line is read, the lines being those of
    the device in the order sent; the consumer is handed the values yielded,
    in that order. *)
Theorem io_write_then_reads port command data script w os g' w' :
  port ∈ w_ports w →
  w_tx_ok w = true →
  NeuronIO.nserialize command = Ok data →
  NeuronIO.run (NeuronIO.ANext :: script) (NeuronIO.io port command) w
  = (os, g', w') →
  ∃ consumed tail,
    w_log w' = w_log w ++ EvOpen port :: EvWrite data :: tail
    ∧ Forall (λ e, ¬ is_write e) tail
    ∧ w_rx w = consumed ++ w_rx w'
    ∧ exchange_trace consumed tail
    ∧ yields tail = NeuronIO.yielded os.
Proof.
  intros Hport Htx Hdata Hrun.
  assert (NeuronIO.run (NeuronIO.ANext :: script) NeuronIO.GenSuspended
            (started port data w) = (os, g', w')) as Hrun'.
  { rewrite <- Hrun, !run_next. by rewrite (next_created _ _ data). }
  destruct (run_suspended_trace _ _ _ _ _ Hrun')
    as (consumed & tail & Hlog & Hrx & Htrace & Hy).
  exists consumed, tail. split; [|split; [|done]].
  - rewrite Hlog. simpl. by rewrite <- !app_assoc.
  - by eapply exchange_trace_no_write.
Qed.

Lemma io_write_then_reads_witness :
  let w := World [lit "/dev/ttyFAKE"] true
             [RLine (blit "1.2.3" ++ CRLF); RLine (blit "." ++ CRLF)] false [] in
  let r := NeuronIO.run [NeuronIO.ANext; NeuronIO.ANext]
             (NeuronIO.io (lit "/dev/ttyFAKE") (lit "version")) w in
  ∃ consumed tail,
    w_log r.2
    = w_log w ++ EvOpen (lit "/dev/ttyFAKE")
        :: EvWrite (blit "version" ++ [x0a]) :: tail
    ∧ Forall (λ e, ¬ is_write e) tail
    ∧ w_rx w = consumed ++ w_rx r.2
    ∧ exchange_trace consumed tail
    ∧ yields tail = NeuronIO.yielded r.1.1.
Proof.
  intros w r.
  apply (io_write_then_reads (lit "/dev/ttyFAKE") (lit "version")
           (blit "version" ++ [x0a]) [NeuronIO.ANext] w r.1.1 r.1.2 r.2).
  - constructor.
  - reflexivity.
  - reflexivity.
  - reflexivity.
Defined.

(** ** The lifetime of the connection *)

Section connection.
Import NeuronIO.
Implicit Types (w : world) (g : generator) (o : outcome)
  (script : list action) (os : list outcome).

Lemma loop_after w o g1 w1 :
  loop w = (o, g1, w1) → g1 = after o ∧ (w_open w = true → w_open w1 = inside_with g1).
Proof.
  destruct (loop_specP w) as [Hrx|line rx content Hrx Hline Hne|r rx o' Hrx Hfinal Hterm];
    intros [= <- <- <-]; [done..|].
  by destruct Hterm as [->|[e ->]].
Qed.

Lemma next_after g w o g1 w1 :
  next g w = (o, g1, w1) →
  g1 = after o ∧ (w_open w = inside_with g → w_open w1 = inside_with g1).
Proof.
  destruct g as [port command| | |]; simpl.
  - unfold serial_open. destruct (decide (port ∈ w_ports w)) as [Hport|Hport];
      [|by intros [= <- <- <-]].
    destruct (nserialize command) as [data|e]; [|by intros [= <- <- <-]].
    unfold serial_write. simpl. destruct (w_tx_ok w); [|by intros [= <- <- <-]].
    intros [-> Hopen]%loop_after. split; [done|]. intros _. by apply Hopen.
  - intros [-> Hopen]%loop_after. split; [done|]. done.
  - by intros [= <- <- <-].
  - by intros [= <- <- <-].
Qed.





End connection.




(** ** Lines that end or abort the exchange *)

Section exchange_end.
Import NeuronIO.
Implicit Types (w : world) (g : generator) (o : outcome)
  (script : list action) (os : list outcome).

Lemma yields_app log1 log2 : yields (log1 ++ log2) = yields log1 ++ yields log2.
Proof. apply omap_app. Qed.

Lemma reading_inv g w w0 :
  reading g w w0 →
  w_rx w0 = w_rx w ∧ yields (w_log w0) = yields (w_log w).
Proof.
  intros [[-> ->]|(port & command & data & -> & _ & _ & _ & ->)]; [done|].
  split; [done|]. simpl. rewrite <- app_assoc, yields_app. simpl.
  by rewrite app_nil_r.
Qed.

(** A read that finishes the generator: the consumer gets the outcome of
    that read and [StopIteration] ever after; the connection is closed and
    nothing more is read or yielded. *)
Lemma run_final g w w0 line rx o script :
  reading g w w0 →
  w_rx w = RLine line :: rx →
  terminal o →
  loop w0 = (o, GenDone,
             serial_close (record (EvRead (RLine line)) (set_rx rx w0))) →
  ∃ w', run (ANext :: script) g w
        = (o :: replicate (nexts script) StopIteration, GenDone, w')
        ∧ w_open w' = false
        ∧ w_rx w' = rx
        ∧ yields (w_log w') = yields (w_log w).
Proof.
  intros Hg Hrx Hterm Hloop. eexists. split; [|split; [|split]].
  - rewrite run_next, (next_reading _ _ _ Hg), Hloop, run_done.
    by destruct Hterm as [->|[e ->]].
  - done.
  - done.
  - destruct (reading_inv _ _ _ Hg) as [_ <-]. simpl.
    rewrite <- app_assoc, yields_app. simpl. by rewrite app_nil_r.
Qed.

Lemma loop_yielded w content g1 w1 :
  loop w = (Yielded content, g1, w1) →
  ∃ line, ndeserialize line = Ok content ∧ content ≠ END_OF_CONTENT.
Proof.
  destruct (loop_specP w) as [Hrx|line rx c Hrx Hline Hne|r rx o Hrx Hfinal Hterm].
  - done.
  - intros [= <- _ _]. by exists line.
  - intros [= -> _ _]. by destruct Hterm as [|[e ?]].
Qed.

Lemma next_yielded g w content g1 w1 :
  next g w = (Yielded content, g1, w1) →
  ∃ line, ndeserialize line = Ok content ∧ content ≠ END_OF_CONTENT.
Proof.
  destruct g as [port command| | |]; simpl; [|apply loop_yielded|done..].
  destruct (serial_open port w) as [w2|]; [|done].
  destruct (nserialize command) as [data|]; [|done].
  destruct (serial_write data w2) as [w3|]; [|done].
  apply loop_yielded.
Qed.

Lemma ndeserialize_stripped line content :
  ndeserialize line = Ok content →
  (∃ pre post, Byte.to_N <$> line = pre ++ content ++ post
               ∧ Forall space pre ∧ Forall space post)
  ∧ (∀ c, head content = Some c → isspace c = false)
  ∧ (∀ c, last content = Some c → isspace c = false).
Proof.
  intros [_ ->]%ndeserialize_ok. split; [apply strip_split|].
  split; intros c; [apply strip_head|apply strip_last].
Qed.
End exchange_end.

(** C6: [ndeserialize] raises exactly on a line with a byte above 0x7F, and
    what it raises is the decoding error of the codec.  When the generator
    reads such a line, the consumer gets that error from [next]; the
    connection is closed, nothing is yielded for the line, nothing more is
    read, and every later [next] gives [StopIteration]. *)
Theorem decoding_error_aborts (line : bytes) :
  ((∃ e, NeuronIO.ndeserialize line = Raise e)
   ↔ Exists (λ x, 0x7F < Byte.to_N x) line)
  ∧ (∀ e, NeuronIO.ndeserialize line = Raise e → e = UnicodeDecodeError)
  ∧ (Exists (λ x, 0x7F < Byte.to_N x) line →
     ∀ g w w0 rx script,
       reading g w w0 →
       w_rx w = RLine line :: rx →
       ∃ w', NeuronIO.run (NeuronIO.ANext :: script) g w
             = (NeuronIO.Raised UnicodeDecodeError
                  :: replicate (nexts script) NeuronIO.StopIteration,
                NeuronIO.GenDone, w')
             ∧ w_open w' = false
             ∧ w_rx w' = rx
             ∧ yields (w_log w') = yields (w_log w)).
Proof.
  split; [|split].
  - split.
    + by intros [e [_ Hex]%ndeserialize_raise].
    + intros Hex. exists UnicodeDecodeError. by apply ndeserialize_raise.
  - by intros e [-> _]%ndeserialize_raise.
  - intros Hex g w w0 rx script Hg Hrx.
    apply (run_final g w w0 line rx); [done|done|right; by eexists|].
    apply loop_raise.
    + destruct (reading_inv _ _ _ Hg) as [-> _]. done.
    + by apply ndeserialize_raise.
Qed.

Lemma decoding_error_aborts_witness :
  ∃ w', NeuronIO.run [NeuronIO.ANext; NeuronIO.ANext; NeuronIO.ANext]
          (NeuronIO.io (lit "/dev/ttyFAKE") (lit "version"))
          (World [lit "/dev/ttyFAKE"] true
             [RLine ([xe9] ++ CRLF); RLine (blit "1.2.3" ++ CRLF)] false [])
        = ([NeuronIO.Raised UnicodeDecodeError; NeuronIO.StopIteration;
            NeuronIO.StopIteration],
           NeuronIO.GenDone, w')
        ∧ w_open w' = false
        ∧ w_rx w' = [RLine (blit "1.2.3" ++ CRLF)]
        ∧ yields (w_log w') = [].
Proof.
  pose (w := World [lit "/dev/ttyFAKE"] true
               [RLine ([xe9] ++ CRLF); RLine (blit "1.2.3" ++ CRLF)] false []).
  destruct (decoding_error_aborts ([xe9] ++ CRLF)) as (_ & _ & Habort).
  apply (Habort ltac:(by constructor)
           (NeuronIO.io (lit "/dev/ttyFAKE") (lit "version")) w
           (started (lit "/dev/ttyFAKE") (blit "version" ++ [x0a]) w)
           [RLine (blit "1.2.3" ++ CRLF)]
           [NeuronIO.ANext; NeuronIO.ANext]).
  - right. exists (lit "/dev/ttyFAKE"), (lit "version"), (blit "version" ++ [x0a]).
    repeat split. constructor.
  - reflexivity.
Defined.

(** C9: what [ndeserialize] returns is the decoded line without a run of
    whitespace at its start and a run of whitespace at its end, and it neither
    starts nor ends with whitespace; the line ["  .\r\n"] decodes to the
    sentinel.  When the generator reads a line whose decoded and stripped
    content is the sentinel, [next] gives [StopIteration], the connection is
    closed and nothing is yielded; and a content that [next] yields never
    starts with whitespace. *)
Theorem ndeserialize_strips_both_ends :
  (∀ line content,
     NeuronIO.ndeserialize line = Ok content →
     (∃ pre post, Byte.to_N <$> line = pre ++ content ++ post
                  ∧ Forall space pre ∧ Forall space post)
     ∧ (∀ c, head content = Some c → isspace c = false)
     ∧ (∀ c, last content = Some c → isspace c = false))
  ∧ NeuronIO.ndeserialize (blit "  ." ++ CRLF) = Ok END_OF_CONTENT
  ∧ (∀ line g w w0 rx script,
       Forall ascii_byte line →
       strip (Byte.to_N <$> line) = END_OF_CONTENT →
       reading g w w0 →
       w_rx w = RLine line :: rx →
       ∃ w', NeuronIO.run (NeuronIO.ANext :: script) g w
             = (NeuronIO.StopIteration
                  :: replicate (nexts script) NeuronIO.StopIteration,
                NeuronIO.GenDone, w')
             ∧ w_open w' = false
             ∧ w_rx w' = rx
             ∧ yields (w_log w') = yields (w_log w))
  ∧ (∀ g w content g1 w1,
       NeuronIO.next g w = (NeuronIO.Yielded content, g1, w1) →
       ∀ c, head content = Some c → isspace c = false).
Proof.
  split; [apply ndeserialize_stripped|]. split; [reflexivity|]. split.
  - intros line g w w0 rx script Hascii Hstrip Hg Hrx.
    apply (run_final g w w0 line rx); [done|done|by left|].
    apply loop_sentinel.
    + destruct (reading_inv _ _ _ Hg) as [-> _]. done.
    + apply ndeserialize_ok. by rewrite Hstrip.
  - intros g w content g1 w1 [line [Hline _]]%next_yielded.
    by apply ndeserialize_stripped in Hline as (_ & Hhead & _).
Qed.

Lemma ndeserialize_strips_both_ends_witness :
  ∃ w', NeuronIO.run [NeuronIO.ANext; NeuronIO.ANext] NeuronIO.GenSuspended
          (World [lit "/dev/ttyFAKE"] true
             [RLine (blit "  ." ++ CRLF); RLine (blit "1.2.3" ++ CRLF)] true
             [EvOpen (lit "/dev/ttyFAKE"); EvWrite (blit "version" ++ [x0a])])
        = ([NeuronIO.StopIteration; NeuronIO.StopIteration],
           NeuronIO.GenDone, w')
        ∧ w_open w' = false
        ∧ w_rx w' = [RLine (blit "1.2.3" ++ CRLF)]
        ∧ yields (w_log w') = [].
Proof.
  pose (w := World [lit "/dev/ttyFAKE"] true
               [RLine (blit "  ." ++ CRLF); RLine (blit "1.2.3" ++ CRLF)] true
               [EvOpen (lit "/dev/ttyFAKE"); EvWrite (blit "version" ++ [x0a])]).
  destruct ndeserialize_strips_both_ends as (_ & _ & Hstop & _).
  apply (Hstop (blit "  ." ++ CRLF) NeuronIO.GenSuspended w w
           [RLine (blit "1.2.3" ++ CRLF)] [NeuronIO.ANext]).
  - repeat constructor.
  - reflexivity.
  - left. split; reflexivity.
  - reflexivity.
Defined.

(** * Further properties of the module *)

(** ** The codec beyond the round trip *)

Section codec_more.
Import NeuronIO.
Implicit Types (s t pre post : str) (line : bytes).

Lemma lstrip_app_space pre s : Forall space pre → lstrip (pre ++ s) = lstrip s.
Proof.
  induction 1 as [|c pre Hc _ IH]; [done|]. simpl.
  unfold space in Hc. by rewrite Hc.
Qed.

Lemma lstrip_all_space pre : Forall space pre → lstrip pre = [].
Proof.
  intros H. rewrite <- (app_nil_r pre). by rewrite lstrip_app_space.
Qed.

Lemma lstrip_app s t :
  lstrip (s ++ t) = match lstrip s with
                    | [] => lstrip t
                    | _ :: _ => lstrip s ++ t
                    end.
Proof.
  induction s as [|c s IH]; [reflexivity|]. simpl.
  destruct (isspace c); [exact IH|reflexivity].
Qed.

Lemma rstrip_app_space s post : Forall space post → rstrip (s ++ post) = rstrip s.
Proof.
  intros H. unfold rstrip. rewrite rev_app_distr.
  rewrite lstrip_app_space; [done|]. by apply Forall_rev.
Qed.

Lemma strip_app_space pre s post :
  Forall space pre → Forall space post → strip (pre ++ s ++ post) = strip s.
Proof.
  intros Hpre Hpost. unfold strip. rewrite lstrip_app_space by done.
  rewrite lstrip_app. destruct (lstrip s) as [|c t] eqn:Hs.
  - rewrite lstrip_all_space by done. done.
  - rewrite rstrip_app_space by done. done.
Qed.

Lemma decode_ascii_app line1 line2 :
  decode_ascii (line1 ++ line2)
  = (s1 ← decode_ascii line1; s2 ← decode_ascii line2; Ok (s1 ++ s2)).
Proof.
  induction line1 as [|x line1 IH]; simpl.
  - by destruct (decode_ascii line2).
  - destruct (is_ascii (Byte.to_N x)); [|done]. rewrite IH.
    destruct (decode_ascii line1); [|done]. simpl.
    by destruct (decode_ascii line2).
Qed.

Lemma decode_ascii_space ws :
  Forall space_byte ws →
  decode_ascii ws = Ok (Byte.to_N <$> ws) ∧ Forall space (Byte.to_N <$> ws).
Proof.
  intros H. split.
  - apply decode_ascii_total. eapply Forall_impl; [done|]. by intros x [_ ?].
  - apply Forall_fmap. eapply Forall_impl; [done|]. by intros x [? _].
Qed.

Lemma decode_ascii_error line e : decode_ascii line = Raise e → e = UnicodeDecodeError.
Proof. by intros [-> _]%decode_ascii_raise. Qed.
End codec_more.

(** [nserialize] returns a wire form exactly for the commands whose text,
    once stripped, is ASCII; for every other command it raises the encoding
    error of the codec and nothing else.  Whitespace outside ASCII at the ends
    of the command is stripped before the encoding and does no harm. *)
Theorem nserialize_ok_iff (command : str) :
  ((∃ wire, NeuronIO.nserialize command = Ok wire)
   ↔ Forall ascii_char (strip command))
  ∧ (NeuronIO.nserialize command = Raise UnicodeEncodeError
     ↔ ¬ Forall ascii_char (strip command))
  ∧ (∀ e, NeuronIO.nserialize command = Raise e → e = UnicodeEncodeError).
Proof.
  split; [|split].
  - split.
    + intros [wire (body & Hbody & _)%nserialize_inv].
      by apply encode_ascii_inv in Hbody as [? _].
    + intros (body & _ & Hwire)%nserialize_total. by eexists.
  - split.
    + by intros [_ ?]%nserialize_raise.
    + intros Hn. destruct (NeuronIO.nserialize command) as [wire|e] eqn:Hc.
      * exfalso. apply Hn. apply nserialize_inv in Hc as (body & Hbody & _).
        by apply encode_ascii_inv in Hbody as [? _].
      * by apply nserialize_raise in Hc as [-> _].
  - by intros e [-> _]%nserialize_raise.
Qed.

(** Whitespace around a command, ASCII or not, does not reach the wire:
    [nserialize] gives the same result, the same bytes or the same error, with
    and without it. *)
Theorem nserialize_ignores_surrounding_whitespace (pre command post : str) :
  Forall space pre →
  Forall space post →
  NeuronIO.nserialize (pre ++ command ++ post) = NeuronIO.nserialize command.
Proof.
  intros Hpre Hpost. unfold NeuronIO.nserialize.
  by rewrite strip_app_space.
Qed.

Lemma nserialize_ignores_surrounding_whitespace_witness :
  NeuronIO.nserialize ([0xA0; 0x09] ++ lit "led.mode 1" ++ [0x0D; LF; 0x2028])
  = NeuronIO.nserialize (lit "led.mode 1").
Proof.
  apply (nserialize_ignores_surrounding_whitespace
           [0xA0; 0x09] (lit "led.mode 1") [0x0D; LF; 0x2028]).
  - repeat constructor.
  - repeat constructor.
Defined.

(** ASCII whitespace around a received line, such as its terminator, be it
    CR LF or LF alone, does not reach the consumer: [ndeserialize] gives the
    same result, the same content or the same error, with and without it. *)
Theorem ndeserialize_ignores_surrounding_whitespace (pre line post : bytes) :
  Forall space_byte pre →
  Forall space_byte post →
  NeuronIO.ndeserialize (pre ++ line ++ post) = NeuronIO.ndeserialize line.
Proof.
  intros [Hpre Hspre]%decode_ascii_space [Hpost Hspost]%decode_ascii_space.
  unfold NeuronIO.ndeserialize. rewrite !decode_ascii_app, Hpre, Hpost. simpl.
  destruct (decode_ascii line) as [s|e] eqn:Hline; simpl; [|done].
  by rewrite strip_app_space.
Qed.

Lemma ndeserialize_ignores_surrounding_whitespace_witness :
  NeuronIO.ndeserialize ([x20] ++ blit "1.2.3" ++ CRLF)
  = NeuronIO.ndeserialize (blit "1.2.3").
Proof.
  apply (ndeserialize_ignores_surrounding_whitespace [x20] (blit "1.2.3") CRLF).
  - repeat constructor.
  - repeat constructor.
Defined.

(** What [ndeserialize] returns is in normal form for the codec: it is ASCII,
    [strip] leaves it as it is, and sent back as a command it encodes without
    error to a wire form that decodes to it again. *)
Theorem ndeserialize_normal_form (line : bytes) (content : str) :
  NeuronIO.ndeserialize line = Ok content →
  Forall ascii_char content
  ∧ strip content = content
  ∧ ∃ wire, NeuronIO.nserialize content = Ok wire
            ∧ NeuronIO.ndeserialize wire = Ok content.
Proof.
  intros [Hascii ->]%ndeserialize_ok.
  assert (Forall ascii_char (strip (Byte.to_N <$> line))) as Hcontent.
  { apply strip_Forall, Forall_fmap. by eapply Forall_impl. }
  split; [done|]. split; [apply strip_idem|].
  destruct (nserialize_total (strip (Byte.to_N <$> line))) as (body & _ & Hwire).
  { by rewrite strip_idem. }
  eexists. split; [done|].
  rewrite (ndeserialize_nserialize _ _ Hwire). by rewrite strip_idem.
Qed.

Lemma ndeserialize_normal_form_witness :
  Forall ascii_char (lit "1.2.3")
  ∧ strip (lit "1.2.3") = lit "1.2.3"
  ∧ ∃ wire, NeuronIO.nserialize (lit "1.2.3") = Ok wire
            ∧ NeuronIO.ndeserialize wire = Ok (lit "1.2.3").
Proof.
  apply (ndeserialize_normal_form (blit " 1.2.3" ++ CRLF) (lit "1.2.3")).
  reflexivity.
Defined.

(** Whenever [nserialize] returns a wire form, also for a command with
    newlines inside or with whitespace outside ASCII at its ends,
    [ndeserialize] of the wire form is the stripped command, and the stripped
    command has the same wire form. *)
Theorem wire_round_trip (command : str) (wire : bytes) :
  NeuronIO.nserialize command = Ok wire →
  NeuronIO.ndeserialize wire = Ok (strip command)
  ∧ NeuronIO.nserialize (strip command) = Ok wire.
Proof.
  intros Hwire. split.
  - unfold NeuronIO.nserialize in Hwire. unfold NeuronIO.ndeserialize.
    apply decode_encode_ascii in Hwire as ->. simpl.
    by rewrite strip_strip_newline.
  - unfold NeuronIO.nserialize in *. by rewrite strip_idem.
Qed.

Lemma wire_round_trip_witness :
  NeuronIO.ndeserialize (blit "a" ++ [x0a] ++ blit "b" ++ [x0a])
  = Ok (strip ([0xA0] ++ lit "a" ++ [LF] ++ lit "b" ++ [0x3000]))
  ∧ NeuronIO.nserialize (strip ([0xA0] ++ lit "a" ++ [LF] ++ lit "b" ++ [0x3000]))
    = Ok (blit "a" ++ [x0a] ++ blit "b" ++ [x0a]).
Proof.
  apply (wire_round_trip ([0xA0] ++ lit "a" ++ [LF] ++ lit "b" ++ [0x3000])
           (blit "a" ++ [x0a] ++ blit "b" ++ [x0a])).
  reflexivity.
Defined.

(** ** The exchange beyond the protocol *)

Section exchange_more.
Import NeuronIO.
Implicit Types (w : world) (g : generator) (o : outcome)
  (script : list action) (os : list outcome).

Lemma run_reading g w w0 script :
  reading g w w0 →
  run (ANext :: script) g w = run (ANext :: script) GenSuspended w0.
Proof. intros Hg. rewrite !run_next. by rewrite (next_reading _ _ _ Hg). Qed.

Lemma reading_created port command data w :
  port ∈ w_ports w →
  w_tx_ok w = true →
  nserialize command = Ok data →
  reading (io port command) w (started port data w).
Proof. intros. right. by exists port, command, data. Qed.

Lemma replicate_next_app n script :
  replicate n ANext ++ ANext :: script = ANext :: replicate n ANext ++ script.
Proof. induction n as [|n IH]; [done|]. simpl. by rewrite IH. Qed.

Lemma writes_app log1 log2 : writes (log1 ++ log2) = writes log1 ++ writes log2.
Proof. apply omap_app. Qed.

Lemma loop_read_fail w rx :
  w_rx w = RFail :: rx →
  loop w = (Raised SerialException, GenDone,
            serial_close (record (EvRead RFail) (set_rx rx w))).
Proof. intros Hrx. unfold loop. by rewrite Hrx. Qed.

Lemma loop_blocks w : w_rx w = [] → loop w = (Blocks, GenBlocked, w).
Proof. intros Hrx. unfold loop. by rewrite Hrx. Qed.

(** The calls of [next] that are answered by the lines before the end of the
    response. *)
Lemma run_yield_prefix lines contents rx script w :
  Forall2 (λ line content,
             ndeserialize line = Ok content ∧ content ≠ END_OF_CONTENT)
          lines contents →
  w_rx w = (RLine <$> lines) ++ rx →
  ∃ w1, w_rx w1 = rx
        ∧ w_open w1 = w_open w
        ∧ writes (w_log w1) = writes (w_log w)
        ∧ run (replicate (length lines) ANext ++ script) GenSuspended w
          = (let '(os, g, w') := run script GenSuspended w1 in
             ((Yielded <$> contents) ++ os, g, w')).
Proof.
  intros Hlines. revert w.
  induction Hlines as [|line content lines contents [Hline Hne] _ IH];
    intros w Hrx.
  - exists w. repeat split; [done|]. simpl.
    by destruct (run script GenSuspended w) as [[os g] w'].
  - change ((RLine <$> line :: lines) ++ rx)
      with (RLine line :: ((RLine <$> lines) ++ rx)) in Hrx.
    destruct (IH (record (EvYield content)
                    (record (EvRead (RLine line))
                       (set_rx ((RLine <$> lines) ++ rx) w))))
      as (w1 & Hrx1 & Hopen1 & Hwrites1 & Hrun1); [done|].
    exists w1. split; [done|]. split; [done|]. split.
    + rewrite Hwrites1. simpl. rewrite <- app_assoc, writes_app. simpl.
      by rewrite app_nil_r.
    + change (replicate (length (line :: lines)) ANext ++ script)
        with (ANext :: (replicate (length lines) ANext ++ script)).
      rewrite run_next. change (next GenSuspended w) with (loop w).
      rewrite (loop_yield _ _ _ _ Hrx Hline Hne), Hrun1.
      by destruct (run script GenSuspended w1) as [[os g] w'].
Qed.
End exchange_more.

(** A device that sends response lines and never the sentinel: the consumer
    is handed the decoded lines, and its next call of [next] never returns;
    the connection stays open.  The exchange has no timeout of its own. *)
Theorem io_blocks_without_sentinel port command data lines contents script w :
  port ∈ w_ports w →
  w_tx_ok w = true →
  NeuronIO.nserialize command = Ok data →
  Forall2 (λ line content,
             NeuronIO.ndeserialize line = Ok content ∧ content ≠ END_OF_CONTENT)
          lines contents →
  w_rx w = RLine <$> lines →
  ∃ w', NeuronIO.run (replicate (S (length lines)) NeuronIO.ANext ++ script)
          (NeuronIO.io port command) w
        = ((NeuronIO.Yielded <$> contents) ++ [NeuronIO.Blocks],
           NeuronIO.GenBlocked, w')
        ∧ w_open w' = true
        ∧ w_rx w' = [].
Proof.
  intros Hport Htx Hdata Hlines Hrx.
  destruct (run_yield_prefix lines contents [] (NeuronIO.ANext :: script)
              (started port data w) Hlines)
    as (w1 & Hrx1 & Hopen1 & _ & Hrun); [by rewrite app_nil_r|].
  exists w1. split; [|done].
  simpl replicate. simpl app.
  rewrite (run_reading _ _ _ _ (reading_created _ _ _ _ Hport Htx Hdata)).
  rewrite <- replicate_next_app, Hrun, run_next. simpl NeuronIO.next.
  by rewrite (loop_blocks _ Hrx1).
Qed.

Lemma io_blocks_without_sentinel_witness :
  ∃ w', NeuronIO.run [NeuronIO.ANext; NeuronIO.ANext; NeuronIO.AClose]
          (NeuronIO.io (lit "/dev/ttyFAKE") (lit "help"))
          (World [lit "/dev/ttyFAKE"] true [RLine (blit "help" ++ CRLF)] false [])
        = ([NeuronIO.Yielded (lit "help"); NeuronIO.Blocks],
           NeuronIO.GenBlocked, w')
        ∧ w_open w' = true
        ∧ w_rx w' = [].
Proof.
  apply (io_blocks_without_sentinel (lit "/dev/ttyFAKE") (lit "help")
           (blit "help" ++ [x0a]) [blit "help" ++ CRLF] [lit "help"]
           [NeuronIO.AClose]
           (World [lit "/dev/ttyFAKE"] true [RLine (blit "help" ++ CRLF)] false [])).
  - constructor.
  - reflexivity.
  - reflexivity.
  - constructor; [|constructor]. split; [reflexivity|]. by vm_compute.
  - reflexivity.
Defined.

(** A read that fails in the middle of the response: the lines received
    before it are handed to the consumer, the failure is raised at the call of
    [next] that makes the read, the connection is closed, what the device
    sends afterwards is not read, and every later call gives
    [StopIteration]. *)
Theorem io_read_failure port command data lines contents rest script w :
  port ∈ w_ports w →
  w_tx_ok w = true →
  NeuronIO.nserialize command = Ok data →
  Forall2 (λ line content,
             NeuronIO.ndeserialize line = Ok content ∧ content ≠ END_OF_CONTENT)
          lines contents →
  w_rx w = (RLine <$> lines) ++ RFail :: rest →
  ∃ w', NeuronIO.run (replicate (S (length lines)) NeuronIO.ANext ++ script)
          (NeuronIO.io port command) w
        = ((NeuronIO.Yielded <$> contents)
             ++ NeuronIO.Raised SerialException
             :: replicate (nexts script) NeuronIO.StopIteration,
           NeuronIO.GenDone, w')
        ∧ w_open w' = false
        ∧ w_rx w' = rest.
Proof.
  intros Hport Htx Hdata Hlines Hrx.
  destruct (run_yield_prefix lines contents (RFail :: rest)
              (NeuronIO.ANext :: script) (started port data w) Hlines)
    as (w1 & Hrx1 & Hopen1 & _ & Hrun); [done|].
  eexists. split.
  - simpl replicate. simpl app.
    rewrite (run_reading _ _ _ _ (reading_created _ _ _ _ Hport Htx Hdata)).
    rewrite <- replicate_next_app, Hrun, run_next. simpl NeuronIO.next.
    by rewrite (loop_read_fail _ _ Hrx1), run_done.
  - done.
Qed.

Lemma io_read_failure_witness :
  ∃ w', NeuronIO.run [NeuronIO.ANext; NeuronIO.ANext; NeuronIO.ANext]
          (NeuronIO.io (lit "/dev/ttyFAKE") (lit "help"))
          (World [lit "/dev/ttyFAKE"] true
             [RLine (blit "help" ++ CRLF); RFail; RLine (blit "." ++ CRLF)]
             false [])
        = ([NeuronIO.Yielded (lit "help"); NeuronIO.Raised SerialException;
            NeuronIO.StopIteration],
           NeuronIO.GenDone, w')
        ∧ w_open w' = false
        ∧ w_rx w' = [RLine (blit "." ++ CRLF)].
Proof.
  apply (io_read_failure (lit "/dev/ttyFAKE") (lit "help")
           (blit "help" ++ [x0a]) [blit "help" ++ CRLF] [lit "help"]
           [RLine (blit "." ++ CRLF)] [NeuronIO.ANext]
           (World [lit "/dev/ttyFAKE"] true
              [RLine (blit "help" ++ CRLF); RFail; RLine (blit "." ++ CRLF)]
              false [])).
  - constructor.
  - reflexivity.
  - reflexivity.
  - constructor; [|constructor]. split; [reflexivity|]. by vm_compute.
  - reflexivity.
Defined.

(** A port that cannot be opened: the first [next] raises the error of the
    serial library and the world is as before; nothing is written, nothing is
    read, and there is nothing to close. *)
Theorem io_open_failure port command script w :
  port ∉ w_ports w →
  NeuronIO.run (NeuronIO.ANext :: script) (NeuronIO.io port command) w
  = (NeuronIO.Raised SerialException
       :: replicate (nexts script) NeuronIO.StopIteration,
     NeuronIO.GenDone, w).
Proof.
  intros Hport. rewrite run_next. unfold NeuronIO.next, NeuronIO.io, serial_open.
  rewrite decide_False by done. by rewrite run_done.
Qed.

Lemma io_open_failure_witness :
  NeuronIO.run [NeuronIO.ANext; NeuronIO.ANext]
    (NeuronIO.io (lit "/dev/ttyACM1") (lit "help"))
    (World [lit "/dev/ttyACM0"] true [RLine (blit "." ++ CRLF)] false [])
  = ([NeuronIO.Raised SerialException; NeuronIO.StopIteration],
     NeuronIO.GenDone,
     World [lit "/dev/ttyACM0"] true [RLine (blit "." ++ CRLF)] false []).
Proof.
  apply (io_open_failure (lit "/dev/ttyACM1") (lit "help") [NeuronIO.ANext]
           (World [lit "/dev/ttyACM0"] true [RLine (blit "." ++ CRLF)] false [])).
  intros H. apply elem_of_cons in H as [H|H]; [discriminate H|].
  by apply elem_of_nil in H.
Defined.

(** A command that does not encode, or a write that fails: the port has been
    opened by then; the first [next] raises the error, the port is closed
    again, and between the open and the close nothing was written or read, so
    the response of the device, if any, is still pending. *)
Theorem io_setup_failure port command script w :
  port ∈ w_ports w →
  ¬ Forall ascii_char (strip command) ∨ w_tx_ok w = false →
  ∃ e w', NeuronIO.run (NeuronIO.ANext :: script) (NeuronIO.io port command) w
          = (NeuronIO.Raised e
               :: replicate (nexts script) NeuronIO.StopIteration,
             NeuronIO.GenDone, w')
          ∧ (e = UnicodeEncodeError ↔ ¬ Forall ascii_char (strip command))
          ∧ w_log w' = w_log w ++ [EvOpen port; EvClose]
          ∧ w_rx w' = w_rx w
          ∧ w_open w' = false.
Proof.
  intros Hport Hfail. rewrite run_next.
  unfold NeuronIO.next, NeuronIO.io, serial_open. rewrite decide_True by done.
  destruct (NeuronIO.nserialize command) as [data|e] eqn:Hdata.
  - assert (Forall ascii_char (strip command)) as Hascii.
    { apply nserialize_inv in Hdata as (body & Hbody & _).
      by apply encode_ascii_inv in Hbody as [? _]. }
    destruct Hfail as [Hn|Htx]; [done|].
    unfold serial_write. simpl. rewrite Htx. unfold NeuronIO.leave_with.
    rewrite run_done. exists SerialException. eexists. split; [done|].
    split; [|split; [|done]].
    + split; [done|]. intros Hn. by destruct Hn.
    + simpl. by rewrite <- app_assoc.
  - apply nserialize_raise in Hdata as [-> Hn]. unfold NeuronIO.leave_with.
    rewrite run_done. exists UnicodeEncodeError. eexists. split; [done|].
    split; [done|]. split; [|done]. simpl. by rewrite <- app_assoc.
Qed.

Lemma io_setup_failure_witness :
  ∃ e w', NeuronIO.run [NeuronIO.ANext]
            (NeuronIO.io (lit "/dev/ttyFAKE") [0xE9])
            (World [lit "/dev/ttyFAKE"] true [RLine (blit "." ++ CRLF)] false [])
          = ([NeuronIO.Raised e], NeuronIO.GenDone, w')
          ∧ (e = UnicodeEncodeError ↔ ¬ Forall ascii_char (strip [0xE9]))
          ∧ w_log w' = [EvOpen (lit "/dev/ttyFAKE"); EvClose]
          ∧ w_rx w' = [RLine (blit "." ++ CRLF)]
          ∧ w_open w' = false.
Proof.
  apply (io_setup_failure (lit "/dev/ttyFAKE") [0xE9] []
           (World [lit "/dev/ttyFAKE"] true [RLine (blit "." ++ CRLF)] false [])).
  - constructor.
  - left. intros H. apply Forall_cons in H as [H _]. discriminate H.
Defined.

Section exchange_safety.
Import NeuronIO.

Lemma yielded_stops n : yielded (replicate n StopIteration) = [].
Proof. induction n as [|n IH]; [done|]. exact IH. Qed.
End exchange_safety.

(** Whatever the consumer does and whatever the port and the device do, an
    exchange either writes nothing, reads nothing and yields nothing (all it
    may do is open the port and close it again), or it opens the port, writes
    the encoded command, and writes nothing else afterwards.  The command is
    never written twice, and nothing but the command is ever written. *)
Theorem io_writes_command_once port command script w os g' w' :
  NeuronIO.run script (NeuronIO.io port command) w = (os, g', w') →
  ∃ added,
    w_log w' = w_log w ++ added
    ∧ ((Forall (λ e, e = EvOpen port ∨ e = EvClose) added
        ∧ w_rx w' = w_rx w
        ∧ NeuronIO.yielded os = [])
       ∨ (∃ data tail,
            NeuronIO.nserialize command = Ok data
            ∧ added = EvOpen port :: EvWrite data :: tail
            ∧ Forall (λ e, ¬ is_write e) tail)).
Proof.
  destruct script as [|[|] script].
  - intros [= <- <- <-]. exists []. rewrite app_nil_r. split; [done|].
    left. by repeat constructor.
  - rewrite run_next. unfold NeuronIO.next, NeuronIO.io at 1, serial_open.
    destruct (decide (port ∈ w_ports w)) as [Hport|Hport].
    + destruct (NeuronIO.nserialize command) as [data|e] eqn:Hdata.
      * unfold serial_write. simpl w_tx_ok.
        destruct (w_tx_ok w) eqn:Htx.
        -- fold (started port data w).
           change (NeuronIO.loop (started port data w))
             with (NeuronIO.next NeuronIO.GenSuspended (started port data w)).
           rewrite <- run_next. intros Hrun.
           destruct (run_suspended_trace _ _ _ _ _ Hrun)
             as (consumed & tail & Hlog & _ & Htrace & _).
           exists (EvOpen port :: EvWrite data :: tail). split.
           ++ rewrite Hlog. simpl. by rewrite <- !app_assoc.
           ++ right. exists data, tail. split; [done|]. split; [done|].
              by eapply exchange_trace_no_write.
        -- unfold NeuronIO.leave_with. rewrite run_done.
           intros [= <- <- <-]. exists [EvOpen port; EvClose]. split.
           ++ simpl. by rewrite <- app_assoc.
           ++ left. split; [by repeat (constructor; [auto|])|]. split; [done|].
              apply (yielded_stops (nexts script)).
      * unfold NeuronIO.leave_with. rewrite run_done.
        intros [= <- <- <-]. exists [EvOpen port; EvClose]. split.
        -- simpl. by rewrite <- app_assoc.
        -- left. split; [by repeat (constructor; [auto|])|]. split; [done|].
           apply (yielded_stops (nexts script)).
    + rewrite run_done. intros [= <- <- <-]. exists []. rewrite app_nil_r.
      split; [done|]. left. split; [constructor|]. split; [done|].
      apply (yielded_stops (nexts script)).
  - simpl. rewrite run_done. intros [= <- <- <-]. exists []. rewrite app_nil_r.
    split; [done|]. left. split; [constructor|]. split; [done|].
    apply yielded_stops.
Qed.

Lemma io_writes_command_once_witness :
  let w := World [lit "/dev/ttyFAKE"] true
             [RLine (blit "1.2.3" ++ CRLF); RLine (blit "." ++ CRLF)] false [] in
  let r := NeuronIO.run [NeuronIO.ANext; NeuronIO.AClose; NeuronIO.ANext]
             (NeuronIO.io (lit "/dev/ttyFAKE") (lit "version")) w in
  ∃ added,
    w_log r.2 = w_log w ++ added
    ∧ ((Forall (λ e, e = EvOpen (lit "/dev/ttyFAKE") ∨ e = EvClose) added
        ∧ w_rx r.2 = w_rx w
        ∧ NeuronIO.yielded r.1.1 = [])
       ∨ (∃ data tail,
            NeuronIO.nserialize (lit "version") = Ok data
            ∧ added = EvOpen (lit "/dev/ttyFAKE") :: EvWrite data :: tail
            ∧ Forall (λ e, ¬ is_write e) tail)).
Proof.
  intros w r.
  apply (io_writes_command_once (lit "/dev/ttyFAKE") (lit "version")
           [NeuronIO.ANext; NeuronIO.AClose; NeuronIO.ANext] w r.1.1 r.1.2 r.2).
  reflexivity.
Defined.

(** ** [NeuronChat.talk] *)

Section talk.
Import NeuronIO.
Implicit Types (w : world) (g : generator) (o : outcome) (e : ending).

Lemma iterate_S fuel g w :
  iterate (S fuel) g w
  = let '(o, g, w) := next g w in
    match o with
    | Yielded content =>
        '(contents, e, g, w) ← iterate fuel g w;
        Some (content :: contents, e, g, w)
    | StopIteration => Some ([], Exhausted, g, w)
    | Raised e => Some ([], Failed e, g, w)
    | Blocks => Some ([], Stuck, g, w)
    end.
Proof. done. Qed.

Lemma iterate_reading g w w0 fuel :
  reading g w w0 → iterate (S fuel) g w = iterate (S fuel) GenSuspended w0.
Proof. intros Hg. rewrite !iterate_S. by rewrite (next_reading _ _ _ Hg). Qed.

(** The iterations that are answered by the lines before the end of the
    response. *)
Lemma iterate_yield_prefix lines contents rx w :
  Forall2 (λ line content,
             ndeserialize line = Ok content ∧ content ≠ END_OF_CONTENT)
          lines contents →
  w_rx w = (RLine <$> lines) ++ rx →
  ∃ w1, w_rx w1 = rx
        ∧ w_open w1 = w_open w
        ∧ writes (w_log w1) = writes (w_log w)
        ∧ ∀ fuel, iterate (length lines + fuel) GenSuspended w
                  = (r ← iterate fuel GenSuspended w1;
                     Some (contents ++ r.1.1.1, r.1.1.2, r.1.2, r.2)).
Proof.
  intros Hlines. revert w.
  induction Hlines as [|line content lines contents [Hline Hne] _ IH];
    intros w Hrx.
  - exists w. repeat split; [done|]. intros fuel. simpl.
    by destruct (iterate fuel GenSuspended w) as [[[[cs e] g] w']|].
  - change ((RLine <$> line :: lines) ++ rx)
      with (RLine line :: ((RLine <$> lines) ++ rx)) in Hrx.
    destruct (IH (record (EvYield content)
                    (record (EvRead (RLine line))
                       (set_rx ((RLine <$> lines) ++ rx) w))))
      as (w1 & Hrx1 & Hopen1 & Hwrites1 & Hiter1); [done|].
    exists w1. split; [done|]. split; [done|]. split.
    + rewrite Hwrites1. simpl. rewrite <- app_assoc, writes_app. simpl.
      by rewrite app_nil_r.
    + intros fuel.
      change (length (line :: lines) + fuel)%nat
        with (S (length lines + fuel)).
      rewrite iterate_S. change (next GenSuspended w) with (loop w).
      rewrite (loop_yield _ _ _ _ Hrx Hline Hne), Hiter1.
      by destruct (iterate fuel GenSuspended w1) as [[[[cs e] g] w']|].
Qed.

Lemma loop_yield_rx w content g1 w1 :
  loop w = (Yielded content, g1, w1) →
  length (w_rx w) = S (length (w_rx w1)).
Proof.
  destruct (loop_specP w) as [Hrx|line rx c Hrx Hline Hne|r rx o Hrx Hfinal Hterm].
  - done.
  - intros [= _ _ <-]. by rewrite Hrx.
  - intros [= -> _ _]. by destruct Hterm as [|[e ?]].
Qed.

Lemma next_yield_rx g w content g1 w1 :
  next g w = (Yielded content, g1, w1) →
  length (w_rx w) = S (length (w_rx w1)).
Proof.
  destruct g as [port command| | |]; simpl; [|apply loop_yield_rx|done..].
  unfold serial_open. destruct (decide (port ∈ w_ports w)); [|done].
  destruct (nserialize command) as [data|]; [|done].
  unfold serial_write. simpl. destruct (w_tx_ok w); [|done].
  intros Hloop%loop_yield_rx. exact Hloop.
Qed.

Lemma loop_blocks_rx w g1 w1 :
  loop w = (Blocks, g1, w1) → w_rx w1 = [].
Proof.
  destruct (loop_specP w) as [Hrx|line rx c Hrx Hline Hne|r rx o Hrx Hfinal Hterm].
  - by intros [= _ <-].
  - done.
  - intros [= -> _ _]. by destruct Hterm as [|[e ?]].
Qed.

Lemma next_blocks_rx g w g1 w1 :
  g ≠ GenBlocked → next g w = (Blocks, g1, w1) → w_rx w1 = [].
Proof.
  intros Hg. destruct g as [port command| | |]; simpl;
    [|apply loop_blocks_rx|done..].
  unfold serial_open. destruct (decide (port ∈ w_ports w)); [|done].
  destruct (nserialize command) as [data|]; [|done].
  unfold serial_write. simpl. destruct (w_tx_ok w); [|done].
  apply loop_blocks_rx.
Qed.

(** One call of [next] more than there are pending reads ends every
    iteration. *)
Lemma iterate_total fuel g w :
  (length (w_rx w) < fuel)%nat → is_Some (iterate fuel g w).
Proof.
  revert g w. induction fuel as [|fuel IH]; intros g w Hfuel; [lia|].
  rewrite iterate_S. destruct (next g w) as [[o g1] w1] eqn:Hnext.
  destruct o as [content| | |]; [|done..].
  apply next_yield_rx in Hnext.
  destruct (IH g1 w1) as [[[[cs e] g2] w2] ->]; [lia|]. done.
Qed.

(** How an iteration leaves the generator and the connection. *)
Lemma iterate_end fuel g w contents e g' w' :
  g ≠ GenBlocked →
  w_open w = inside_with g →
  iterate fuel g w = Some (contents, e, g', w') →
  w_open w' = inside_with g'
  ∧ (e = Stuck → g' = GenBlocked ∧ w_rx w' = [])
  ∧ (e ≠ Stuck → g' = GenDone).
Proof.
  revert g w contents. induction fuel as [|fuel IH]; intros g w contents Hg Hw;
    [done|].
  rewrite iterate_S. destruct (next g w) as [[o g1] w1] eqn:Hnext.
  destruct (next_after _ _ _ _ _ Hnext) as [-> Hopen]. specialize (Hopen Hw).
  destruct o as [content| | |].
  - destruct (iterate fuel (after (Yielded content)) w1)
      as [[[[cs e1] g2] w2]|] eqn:Hiter; [|done].
    intros [= <- <- <- <-]. by apply (IH GenSuspended w1 cs).
  - by intros [= <- <- <- <-].
  - by intros [= <- <- <- <-].
  - intros [= <- <- <- <-]. split; [done|]. split; [|done].
    intros _. split; [done|]. by eapply next_blocks_rx.
Qed.

Lemma join_cons sep item items :
  join sep (item :: items) = item ++ mjoin ((λ s, sep ++ s) <$> items).
Proof.
  revert item. induction items as [|item' items IH]; intros item.
  - simpl. by rewrite app_nil_r.
  - change (join sep (item :: item' :: items))
      with (item ++ sep ++ join sep (item' :: items)).
    rewrite IH. simpl. by rewrite <- !app_assoc.
Qed.
End talk.

Section talk_exchange.
Import NeuronIO NeuronChat.

(** The iteration that [talk] makes, up to the read that follows the response
    lines. *)
Lemma talk_iterate self command data lines contents rx w :
  _port self ∈ w_ports w →
  w_tx_ok w = true →
  nserialize command = Ok data →
  Forall2 (λ line content,
             ndeserialize line = Ok content ∧ content ≠ END_OF_CONTENT)
          lines contents →
  w_rx w = (RLine <$> lines) ++ rx →
  ∃ w1, w_rx w1 = rx
        ∧ w_open w1 = true
        ∧ writes (w_log w1) = writes (w_log w) ++ [data]
        ∧ iterate (S (length (w_rx w))) (io (_port self) command) w
          = (r ← iterate (S (length rx)) GenSuspended w1;
             Some (contents ++ r.1.1.1, r.1.1.2, r.1.2, r.2)).
Proof.
  intros Hport Htx Hdata Hlines Hrx.
  destruct (iterate_yield_prefix lines contents rx
              (started (_port self) data w) Hlines)
    as (w1 & Hrx1 & Hopen1 & Hwrites1 & Hiter); [done|].
  exists w1. split; [done|]. split; [done|]. split.
  - rewrite Hwrites1. unfold started. simpl w_log. rewrite !writes_app.
    simpl. by rewrite app_nil_r.
  - rewrite (iterate_reading _ _ _ _ (reading_created _ _ _ _ Hport Htx Hdata)).
    rewrite <- Hiter, Hrx. f_equal.
    rewrite length_app, length_fmap. lia.
Qed.

Lemma talk_of_iterate self command verbose w lines e g' w' :
  iterate (S (length (w_rx w))) (io (_port self) command) w
  = Some (lines, e, g', w') →
  talk self command verbose w
  = Some (match e with
          | Exhausted =>
              Returns (join [LF]
                         (if verbose
                          then (UI_TO_NEURON ++ lit " " ++ command ++ lit ": ")
                                 :: (UI_TEMPLATE <$> lines)
                          else lines))
          | Failed e => Raises e
          | Stuck => Hangs
          end, w').
Proof. unfold talk. by intros ->. Qed.

Lemma writes_closed r rx w :
  writes (w_log (serial_close (record (EvRead r) (set_rx rx w))))
  = writes (w_log w).
Proof.
  simpl. rewrite <- app_assoc, writes_app. simpl. by rewrite app_nil_r.
Qed.
End talk_exchange.

(** [talk] without [verbose], against a device that answers with N lines and
    the sentinel: it returns the N decoded lines joined by newlines (the empty
    string for N = 0, no newline after the last line), having written the
    encoded command once and closed the connection; what the device sends
    after the sentinel is left unread. *)
Theorem talk_returns_lines self command data lines contents sentinel rest w :
  NeuronChat._port self ∈ w_ports w →
  w_tx_ok w = true →
  NeuronIO.nserialize command = Ok data →
  Forall2 (λ line content,
             NeuronIO.ndeserialize line = Ok content ∧ content ≠ END_OF_CONTENT)
          lines contents →
  NeuronIO.ndeserialize sentinel = Ok END_OF_CONTENT →
  w_rx w = (RLine <$> lines) ++ RLine sentinel :: rest →
  ∃ w', NeuronChat.talk self command false w
        = Some (NeuronChat.Returns (join [LF] contents), w')
        ∧ w_open w' = false
        ∧ w_rx w' = rest
        ∧ writes (w_log w') = writes (w_log w) ++ [data].
Proof.
  intros Hport Htx Hdata Hlines Hsentinel Hrx.
  destruct (talk_iterate self command data lines contents
              (RLine sentinel :: rest) w)
    as (w1 & Hrx1 & Hopen1 & Hwrites1 & Hiter); [done..|].
  eexists. split; [|split; [|split]].
  - unfold NeuronChat.talk. rewrite Hiter, iterate_S.
    change (NeuronIO.next NeuronIO.GenSuspended w1) with (NeuronIO.loop w1).
    rewrite (loop_sentinel _ _ _ Hrx1 Hsentinel). simpl.
    by rewrite app_nil_r.
  - done.
  - done.
  - by rewrite writes_closed.
Qed.

Lemma talk_returns_lines_witness :
  ∃ w', NeuronChat.talk {| NeuronChat._port := lit "/dev/ttyFAKE" |}
          (lit "help") false
          (World [lit "/dev/ttyFAKE"] true
             [RLine (blit "help" ++ CRLF); RLine (blit "version" ++ CRLF);
              RLine (blit "." ++ CRLF)] false [])
        = Some (NeuronChat.Returns (lit "help" ++ [LF] ++ lit "version"), w')
        ∧ w_open w' = false
        ∧ w_rx w' = []
        ∧ writes (w_log w') = [blit "help" ++ [x0a]].
Proof.
  apply (talk_returns_lines {| NeuronChat._port := lit "/dev/ttyFAKE" |}
           (lit "help") (blit "help" ++ [x0a])
           [blit "help" ++ CRLF; blit "version" ++ CRLF]
           [lit "help"; lit "version"] (blit "." ++ CRLF) []
           (World [lit "/dev/ttyFAKE"] true
              [RLine (blit "help" ++ CRLF); RLine (blit "version" ++ CRLF);
               RLine (blit "." ++ CRLF)] false [])).
  - constructor.
  - reflexivity.
  - reflexivity.
  - repeat (constructor; [split; [reflexivity|by vm_compute]|]). constructor.
  - reflexivity.
  - reflexivity.
Defined.

(** [talk] with [verbose], against the same device: it returns the header
    ["<< "], the command as it was given (not stripped) and [": "], followed
    for each decoded line by a newline, [">> "] and the line. *)
Theorem talk_verbose_format self command data lines contents sentinel rest w :
  NeuronChat._port self ∈ w_ports w →
  w_tx_ok w = true →
  NeuronIO.nserialize command = Ok data →
  Forall2 (λ line content,
             NeuronIO.ndeserialize line = Ok content ∧ content ≠ END_OF_CONTENT)
          lines contents →
  NeuronIO.ndeserialize sentinel = Ok END_OF_CONTENT →
  w_rx w = (RLine <$> lines) ++ RLine sentinel :: rest →
  ∃ w', NeuronChat.talk self command true w
        = Some (NeuronChat.Returns
                  ((lit "<< " ++ command ++ lit ": ")
                     ++ mjoin ((λ content, LF :: lit ">> " ++ content)
                                 <$> contents)), w')
        ∧ w_open w' = false
        ∧ w_rx w' = rest.
Proof.
  intros Hport Htx Hdata Hlines Hsentinel Hrx.
  destruct (talk_iterate self command data lines contents
              (RLine sentinel :: rest) w)
    as (w1 & Hrx1 & Hopen1 & Hwrites1 & Hiter); [done..|].
  rewrite (iterate_S _ NeuronIO.GenSuspended w1) in Hiter.
  change (NeuronIO.next NeuronIO.GenSuspended w1)
    with (NeuronIO.loop w1) in Hiter.
  rewrite (loop_sentinel _ _ _ Hrx1 Hsentinel) in Hiter. simpl in Hiter.
  rewrite app_nil_r in Hiter.
  eexists. split.
  - rewrite (talk_of_iterate _ _ true _ _ _ _ _ Hiter).
    rewrite join_cons, <- list_fmap_compose. reflexivity.
  - done.
Qed.

Lemma talk_verbose_format_witness :
  ∃ w', NeuronChat.talk {| NeuronChat._port := lit "/dev/ttyFAKE" |}
          (lit " version") true
          (World [lit "/dev/ttyFAKE"] true
             [RLine (blit "1.2.3" ++ CRLF); RLine (blit "." ++ CRLF)] false [])
        = Some (NeuronChat.Returns
                  (lit "<<  version: " ++ [LF] ++ lit ">> 1.2.3"), w')
        ∧ w_open w' = false
        ∧ w_rx w' = [].
Proof.
  apply (talk_verbose_format {| NeuronChat._port := lit "/dev/ttyFAKE" |}
           (lit " version") (blit "version" ++ [x0a])
           [blit "1.2.3" ++ CRLF] [lit "1.2.3"] (blit "." ++ CRLF) []
           (World [lit "/dev/ttyFAKE"] true
              [RLine (blit "1.2.3" ++ CRLF); RLine (blit "." ++ CRLF)] false [])).
  - constructor.
  - reflexivity.
  - reflexivity.
  - repeat (constructor; [split; [reflexivity|by vm_compute]|]). constructor.
  - reflexivity.
  - reflexivity.
Defined.

(** A line that does not decode, after N good lines: [talk] raises the
    decoding error, in both modes; the N lines already received are not
    returned, the connection is closed, and what the device sends afterwards
    is left unread. *)
Theorem talk_decoding_error self command verbose data lines contents bad rest w :
  NeuronChat._port self ∈ w_ports w →
  w_tx_ok w = true →
  NeuronIO.nserialize command = Ok data →
  Forall2 (λ line content,
             NeuronIO.ndeserialize line = Ok content ∧ content ≠ END_OF_CONTENT)
          lines contents →
  Exists (λ x, 0x7F < Byte.to_N x) bad →
  w_rx w = (RLine <$> lines) ++ RLine bad :: rest →
  ∃ w', NeuronChat.talk self command verbose w
        = Some (NeuronChat.Raises UnicodeDecodeError, w')
        ∧ w_open w' = false
        ∧ w_rx w' = rest.
Proof.
  intros Hport Htx Hdata Hlines Hbad Hrx.
  destruct (talk_iterate self command data lines contents
              (RLine bad :: rest) w)
    as (w1 & Hrx1 & Hopen1 & Hwrites1 & Hiter); [done..|].
  rewrite (iterate_S _ NeuronIO.GenSuspended w1) in Hiter.
  change (NeuronIO.next NeuronIO.GenSuspended w1)
    with (NeuronIO.loop w1) in Hiter.
  rewrite (loop_raise _ _ _ UnicodeDecodeError Hrx1) in Hiter
    by (by apply ndeserialize_raise).
  simpl in Hiter. eexists. split.
  - by rewrite (talk_of_iterate _ _ verbose _ _ _ _ _ Hiter).
  - done.
Qed.

Lemma talk_decoding_error_witness :
  ∃ w', NeuronChat.talk {| NeuronChat._port := lit "/dev/ttyFAKE" |}
          (lit "version") true
          (World [lit "/dev/ttyFAKE"] true
             [RLine (blit "1.2.3" ++ CRLF); RLine ([xff] ++ CRLF);
              RLine (blit "." ++ CRLF)] false [])
        = Some (NeuronChat.Raises UnicodeDecodeError, w')
        ∧ w_open w' = false
        ∧ w_rx w' = [RLine (blit "." ++ CRLF)].
Proof.
  apply (talk_decoding_error {| NeuronChat._port := lit "/dev/ttyFAKE" |}
           (lit "version") true (blit "version" ++ [x0a])
           [blit "1.2.3" ++ CRLF] [lit "1.2.3"] ([xff] ++ CRLF)
           [RLine (blit "." ++ CRLF)]
           (World [lit "/dev/ttyFAKE"] true
              [RLine (blit "1.2.3" ++ CRLF); RLine ([xff] ++ CRLF);
               RLine (blit "." ++ CRLF)] false [])).
  - constructor.
  - reflexivity.
  - reflexivity.
  - repeat (constructor; [split; [reflexivity|by vm_compute]|]). constructor.
  - by constructor.
  - reflexivity.
Defined.

(** [talk] iterates its generator to the end, so it never leaves a connection
    behind: started with the connection closed, it returns or raises with the
    connection closed again, for every port, device and command.  The one
    other way it can go is to hang, inside a read, with the connection open
    and everything that the device sent consumed. *)
Theorem talk_closes_connection self command verbose w :
  w_open w = false →
  ∃ res w', NeuronChat.talk self command verbose w = Some (res, w')
            ∧ (res ≠ NeuronChat.Hangs → w_open w' = false)
            ∧ (res = NeuronChat.Hangs → w_open w' = true ∧ w_rx w' = []).
Proof.
  intros Hw.
  destruct (iterate_total (S (length (w_rx w)))
              (NeuronIO.io (NeuronChat._port self) command) w)
    as [[[[lines e] g'] w'] Hiter]; [lia|].
  assert (NeuronIO.io (NeuronChat._port self) command ≠ NeuronIO.GenBlocked)
    as Hg0 by done.
  destruct (iterate_end _ _ _ _ _ _ _ Hg0 Hw Hiter)
    as (Hopen & Hstuck & Hdone).
  rewrite (talk_of_iterate _ _ verbose _ _ _ _ _ Hiter).
  eexists _, w'. split; [reflexivity|].
  destruct e as [|e|].
  - split; [|done]. intros _. by rewrite Hopen, Hdone.
  - split; [|done]. intros _. by rewrite Hopen, Hdone.
  - split; [done|]. intros _. destruct Hstuck as [Hg Hrx]; [done|].
    by rewrite Hopen, Hg.
Qed.

Lemma talk_closes_connection_witness :
  ∃ res w', NeuronChat.talk {| NeuronChat._port := lit "/dev/ttyFAKE" |}
              (lit "version") false
              (World [lit "/dev/ttyFAKE"] true
                 [RLine (blit "1.2.3" ++ CRLF); RFail] false [])
            = Some (res, w')
            ∧ (res ≠ NeuronChat.Hangs → w_open w' = false)
            ∧ (res = NeuronChat.Hangs → w_open w' = true ∧ w_rx w' = []).
Proof.
  apply (talk_closes_connection {| NeuronChat._port := lit "/dev/ttyFAKE" |}
           (lit "version") false
           (World [lit "/dev/ttyFAKE"] true
              [RLine (blit "1.2.3" ++ CRLF); RFail] false [])).
  reflexivity.
Defined.

(** Against a device that sends response lines and never the sentinel, [talk]
    does not return: it hangs in the read after the last line, in both
    modes. *)
Theorem talk_hangs_without_sentinel self command verbose data lines contents w :
  NeuronChat._port self ∈ w_ports w →
  w_tx_ok w = true →
  NeuronIO.nserialize command = Ok data →
  Forall2 (λ line content,
             NeuronIO.ndeserialize line = Ok content ∧ content ≠ END_OF_CONTENT)
          lines contents →
  w_rx w = RLine <$> lines →
  ∃ w', NeuronChat.talk self command verbose w = Some (NeuronChat.Hangs, w')
        ∧ w_open w' = true.
Proof.
  intros Hport Htx Hdata Hlines Hrx.
  destruct (talk_iterate self command data lines contents [] w)
    as (w1 & Hrx1 & Hopen1 & Hwrites1 & Hiter);
    [done|done|done|done|by rewrite app_nil_r|].
  rewrite (iterate_S _ NeuronIO.GenSuspended w1) in Hiter.
  change (NeuronIO.next NeuronIO.GenSuspended w1)
    with (NeuronIO.loop w1) in Hiter.
  rewrite (loop_blocks _ Hrx1) in Hiter. simpl in Hiter.
  exists w1. split; [|done].
  by rewrite (talk_of_iterate _ _ verbose _ _ _ _ _ Hiter).
Qed.

Lemma talk_hangs_without_sentinel_witness :
  ∃ w', NeuronChat.talk {| NeuronChat._port := lit "/dev/ttyFAKE" |}
          (lit "version") false
          (World [lit "/dev/ttyFAKE"] true [RLine (blit "1.2.3" ++ CRLF)] false [])
        = Some (NeuronChat.Hangs, w')
        ∧ w_open w' = true.
Proof.
  apply (talk_hangs_without_sentinel {| NeuronChat._port := lit "/dev/ttyFAKE" |}
           (lit "version") false (blit "version" ++ [x0a])
           [blit "1.2.3" ++ CRLF] [lit "1.2.3"]
           (World [lit "/dev/ttyFAKE"] true [RLine (blit "1.2.3" ++ CRLF)] false [])).
  - constructor.
  - reflexivity.
  - reflexivity.
  - repeat (constructor; [split; [reflexivity|by vm_compute]|]). constructor.
  - reflexivity.
Defined.

(** ** Discovery and the Defy product ids *)


